(** * wikireader_fastparser: the streaming dump pipeline of package [xml]

    A shallow embedding of [xml/xml.go]: the page record, the decoder loop of
    [startReader], the per-page policy of [startWorker], the file writer of
    [startWriter] and the goroutine protocol of [Start], followed by the
    properties the design document states about them.

    Go strings are byte sequences; they are modelled by [string] (a sequence
    of [ascii] bytes).  Calls that leave the package (the XML marshaller, the
    parse script, the file system) are taken from an environment record, and
    every such call is recorded in an event trace. *)

From Stdlib Require Import String Ascii List ZArith Lia Bool Arith.
From Stdlib Require Import DecimalString.
Import ListNotations.

Local Open Scope list_scope.
Local Open Scope string_scope.

(** ** Package [strings] of the Go library, as far as the program uses it *)

Module strings.

(** [strings.HasPrefix(s, prefix)]. *)
Fixpoint HasPrefix (s prefix : string) {struct prefix} : bool :=
  match prefix with
  | EmptyString => true
  | String c prefix' =>
      match s with
      | EmptyString => false
      | String d s' => Ascii.eqb d c && HasPrefix s' prefix'
      end
  end.

(** [strings.Contains(s, substr)]. *)
Fixpoint Contains (s substr : string) : bool :=
  HasPrefix s substr ||
  match s with
  | EmptyString => false
  | String _ s' => Contains s' substr
  end.

(** The replacement budget of [strings.Replace]: [None] when [n < 0] (no
    limit), otherwise the number of replacements still allowed. *)
Definition budget (n : Z) : option nat :=
  if (n <? 0)%Z then None else Some (Z.to_nat n).

Definition exhausted (b : option nat) : bool :=
  match b with
  | Some O => true
  | _ => false
  end.

Definition spend (b : option nat) : option nat :=
  match b with
  | Some k => Some (Nat.pred k)
  | None => None
  end.

(** The scan of [strings.Replace] for a non-empty [old]: the leftmost
    occurrence of [old] is replaced, the scan resumes behind it, so the
    replaced occurrences never overlap.  [skip] counts the bytes of a matched
    occurrence that are still to be passed over. *)
Fixpoint replaceScan (old new : string) (b : option nat) (skip : nat)
    (s : string) {struct s} : string :=
  match s with
  | EmptyString => EmptyString
  | String c s' =>
      match skip with
      | S k => replaceScan old new b k s'
      | O =>
          if exhausted b then s
          else if HasPrefix s old
          then new
               ++ replaceScan old new (spend b) (Nat.pred (String.length old)) s'
          else String c (replaceScan old new b 0 s')
      end
  end.

(** [strings.Replace] with an empty [old]: [new] is inserted in front of
    every byte and at the end (Go inserts at UTF-8 sequence boundaries; the
    two agree on ASCII text, and no call of the program has an empty [old]). *)
Fixpoint replaceEmpty (new : string) (b : option nat) (s : string) : string :=
  if exhausted b then s
  else match s with
       | EmptyString => new
       | String c s' => new ++ String c (replaceEmpty new (spend b) s')
       end.

(** [strings.Replace(s, old, new, n)]. *)
Definition Replace (s old new : string) (n : Z) : string :=
  if String.eqb old new || (n =? 0)%Z then s
  else match old with
       | EmptyString => replaceEmpty new (budget n) s
       | String _ _ => replaceScan old new (budget n) 0 s
       end.

(** [strings.ReplaceAll(s, old, new)]. *)
Definition ReplaceAll (s old new : string) : string :=
  Replace s old new (-1).

End strings.

(** ** Package [xml]: data *)

(** [xml.Name]. *)
Record Name := {
  Name_Space : string;
  Name_Local : string
}.

(** The anonymous struct of [Page.Redirect]. *)
Record PageRedirect := {
  Redirect_Text : string;
  Redirect_Title : string
}.

(** The anonymous struct of [Page.Revision.Contributor]. *)
Record RevisionContributor := {
  Contributor_Text : string;
  Contributor_Username : string;
  Contributor_ID : string
}.

(** The anonymous struct of [Page.Revision.Text]; [Text_Text] is the
    [innerxml] of the [<text>] element, the body of the page. *)
Record RevisionText := {
  Text_Text : string;
  Text_Bytes : string;
  Text_Space : string
}.

(** The anonymous struct of [Page.Revision]. *)
Record PageRevision := {
  Revision_Chardata : string;
  Revision_ID : string;
  Revision_Parentid : string;
  Revision_Timestamp : string;
  Revision_Contributor : RevisionContributor;
  Revision_Comment : string;
  Revision_Model : string;
  Revision_Format : string;
  Revision_Text : RevisionText;
  Revision_Sha1 : string
}.

(** [type Page struct]: a wikimedia xml page. *)
Record Page := {
  XMLName : Name;
  Text : string;
  Title : string;
  Ns : string;
  ID : string;
  Redirect : PageRedirect;
  Revision : PageRevision
}.

(** [p.Revision.Text.Text]. *)
Definition body (p : Page) : string := Text_Text (Revision_Text (Revision p)).

(** The assignment [p.Revision.Text.Text = t]. *)
Definition set_body (t : string) (p : Page) : Page :=
  {| XMLName := XMLName p;
     Text := Text p;
     Title := Title p;
     Ns := Ns p;
     ID := ID p;
     Redirect := Redirect p;
     Revision :=
       {| Revision_Chardata := Revision_Chardata (Revision p);
          Revision_ID := Revision_ID (Revision p);
          Revision_Parentid := Revision_Parentid (Revision p);
          Revision_Timestamp := Revision_Timestamp (Revision p);
          Revision_Contributor := Revision_Contributor (Revision p);
          Revision_Comment := Revision_Comment (Revision p);
          Revision_Model := Revision_Model (Revision p);
          Revision_Format := Revision_Format (Revision p);
          Revision_Text :=
            {| Text_Text := t;
               Text_Bytes := Text_Bytes (Revision_Text (Revision p));
               Text_Space := Text_Space (Revision_Text (Revision p)) |};
          Revision_Sha1 := Revision_Sha1 (Revision p) |} |}.

(** What [decoder.Token()] hands to the loop of [startReader]:
    [PageElement p] is a start element whose local name is [page], with the
    page that [decoder.DecodeElement] reads from it; [OtherToken] is any other
    token. *)
Inductive Token :=
| PageElement (p : Page)
| OtherToken.

(** The two serializers of [encoding/xml] the worker calls. *)
Inductive Marshaller :=
| Marshal
| MarshalIndent (prefix indent : string).

(** Calls that leave the package, in the order they happen. *)
Inductive Event :=
| EvLog (line : string)
| EvExec (stdin : string)
| EvMarshal (m : Marshaller) (p : Page).

(** The world around the package. *)
Record Env := {
  (** [os.Open(w.InputFile)] and the tokens the decoder reads from it;
      [None] when the file cannot be opened *)
  open_input : option (list Token);
  (** whether [os.Create(w.OutputFile)] succeeds *)
  create_output : bool;
  (** whether the [k]-th [f.Write] of the run succeeds *)
  write_ok : nat -> bool;
  (** [exec.Command(w.ParseScript)] with the given standard input:
      the combined output, or [None] when [CombinedOutput] returns an error *)
  parse_script : string -> option string;
  (** [xml.Marshal] and [xml.MarshalIndent]; [None] is an error *)
  xml_marshal : Marshaller -> Page -> option string;
  (** [w.workerCount] *)
  workerCount : Z
}.

Definition nl : string := String (ascii_of_nat 10) EmptyString.
Definition dq : string := String (ascii_of_nat 34) EmptyString.

Definition attr (key value : string) : string :=
  " " ++ key ++ "=" ++ dq ++ value ++ dq.

Definition namespace (key case name : string) : string :=
  "      <namespace" ++ attr "key" key ++ attr "case" case ++ ">" ++ name
  ++ "</namespace>" ++ nl.

(** [var head]: the dummy XML head written in front of the pages. *)
Definition head : string :=
  nl ++ "<mediawiki"
  ++ attr "xmlns" "http://www.mediawiki.org/xml/export-0.10/"
  ++ attr "xmlns:xsi" "http://www.w3.org/2001/XMLSchema-instance"
  ++ attr "xsi:schemaLocation"
       "http://www.mediawiki.org/xml/export-0.10/ http://www.mediawiki.org/xml/export-0.10.xsd"
  ++ attr "version" "0.10" ++ attr "xml:lang" "en" ++ ">" ++ nl
  ++ "    <sitename>Wikipedia</sitename>" ++ nl
  ++ "    <dbname>enwiki</dbname>" ++ nl
  ++ "    <base>https://en.wikipedia.org/wiki/Main_Page</base>" ++ nl
  ++ "    <generator>MediaWiki 1.35.0-wmf.31</generator>" ++ nl
  ++ "    <case>first-letter</case>" ++ nl
  ++ "    <namespaces>" ++ nl
  ++ namespace "-2" "first-letter" "Media"
  ++ namespace "-1" "first-letter" "Special"
  ++ "      <namespace" ++ attr "key" "0" ++ attr "case" "first-letter" ++ " />"
  ++ nl
  ++ namespace "1" "first-letter" "Talk"
  ++ namespace "2" "first-letter" "User"
  ++ namespace "3" "first-letter" "User talk"
  ++ namespace "4" "first-letter" "Wikipedia"
  ++ namespace "5" "first-letter" "Wikipedia talk"
  ++ namespace "6" "first-letter" "File"
  ++ namespace "7" "first-letter" "File talk"
  ++ namespace "8" "first-letter" "MediaWiki"
  ++ namespace "9" "first-letter" "MediaWiki talk"
  ++ namespace "10" "first-letter" "Template"
  ++ namespace "11" "first-letter" "Template talk"
  ++ namespace "12" "first-letter" "Help"
  ++ namespace "13" "first-letter" "Help talk"
  ++ namespace "14" "first-letter" "Category"
  ++ namespace "15" "first-letter" "Category talk"
  ++ namespace "100" "first-letter" "Portal"
  ++ namespace "101" "first-letter" "Portal talk"
  ++ namespace "108" "first-letter" "Book"
  ++ namespace "109" "first-letter" "Book talk"
  ++ namespace "118" "first-letter" "Draft"
  ++ namespace "119" "first-letter" "Draft talk"
  ++ namespace "446" "first-letter" "Education Program"
  ++ namespace "447" "first-letter" "Education Program talk"
  ++ namespace "710" "first-letter" "TimedText"
  ++ namespace "711" "first-letter" "TimedText talk"
  ++ namespace "828" "first-letter" "Module"
  ++ namespace "829" "first-letter" "Module talk"
  ++ namespace "2300" "first-letter" "Gadget"
  ++ namespace "2301" "first-letter" "Gadget talk"
  ++ namespace "2302" "case-sensitive" "Gadget definition"
  ++ namespace "2303" "case-sensitive" "Gadget definition talk"
  ++ "    </namespaces>" ++ nl
  ++ "  </siteinfo>" ++ nl
  ++ " ".

(** ** Package [xml]: the three stages, one goroutine at a time *)

(** [find]: a helper function for searching a slice of strings. *)
Fixpoint find (slice : list string) (val : string) : bool :=
  match slice with
  | [] => false
  | p :: rest => if String.eqb p val then true else find rest val
  end.

(** [var seen = make([]string, 0)]. *)
Definition seen0 : list string := [].

(** The sentinels the worker swaps the link symbols for. *)
Definition SPEC_START : string := "<SPEC_START>".
Definition SPEC_END : string := "<SPEC_END>".

(** Lines 245-246 and 262-263 of [startWorker], on a body text. *)
Definition escape (t : string) : string :=
  strings.ReplaceAll (strings.ReplaceAll t "[[" SPEC_START) "]]" SPEC_END.

Definition unescape (t : string) : string :=
  strings.ReplaceAll (strings.ReplaceAll t SPEC_START "[[") SPEC_END "]]".

(** The writer's clean-up of one item (line 192 of [startWriter]). *)
Definition strip (text : string) : string :=
  strings.Replace text "&#xA;" EmptyString (-1).

(** How one iteration of the worker's loop ends. *)
Inductive Outcome :=
| Emit (output : string)   (* [w.OutText <- output] *)
| Skip                     (* [continue] after a failed parse script *)
| Panic.                   (* [panic(err)] *)

(** A run of one goroutine: it returned, or it panicked. *)
Inductive Exit :=
| Returned
| Panicked.

Definition log_processing (p : Page) : Event :=
  EvLog ("processing title: " ++ " " ++ Title p).

Definition log_parse_error (p : Page) : Event :=
  EvLog ("error parsing title " ++ Title p ++ ". Skipping").

Definition log_duplicate (p : Page) : Event :=
  EvLog ("Duplicate title: " ++ Title p ++ ". Skipping...").

Section Stages.

Variable env : Env.

(** The call of a serializer and the check of its error. *)
Definition marshal_or_panic (m : Marshaller) (p : Page)
    : list Event * Outcome :=
  ([EvMarshal m p],
   match xml_marshal env m p with
   | Some output => Emit output
   | None => Panic
   end).

(** The body of the loop [for p := range w.InPage] of [startWorker]. *)
Definition processPage (p : Page) : list Event * Outcome :=
  if strings.HasPrefix (body p) "#REDIRECT" then
    let (ev, o) := marshal_or_panic Marshal p in
    (log_processing p :: ev, o)
  else
    let p1 := set_body (strings.ReplaceAll (body p) "[[" SPEC_START) p in
    let p2 := set_body (strings.ReplaceAll (body p1) "]]" SPEC_END) p1 in
    match parse_script env (body p2) with
    | None =>
        ([log_processing p; EvExec (body p2); log_parse_error p2], Skip)
    | Some clean =>
        let new := strings.ReplaceAll clean SPEC_START "[[" in
        let new := strings.ReplaceAll new SPEC_END "]]" in
        let p3 := set_body new p2 in
        let (ev, o) := marshal_or_panic (MarshalIndent "  " "    ") p3 in
        (log_processing p :: EvExec (body p2) :: ev, o)
    end.

(** [startWorker] on the pages it receives from [w.InPage], in order, up to
    the close of the channel: the events, the items sent on [w.OutText], and
    how the goroutine ends. *)
Fixpoint startWorker (pages : list Page) : list Event * list string * Exit :=
  match pages with
  | [] => ([EvLog "exiting xml worker"], [], Returned)
  | p :: rest =>
      let (ev, o) := processPage p in
      match o with
      | Panic => (ev, [], Panicked)
      | Skip =>
          let '(ev', out, e) := startWorker rest in
          ((ev ++ ev')%list, out, e)
      | Emit output =>
          let '(ev', out, e) := startWorker rest in
          ((ev ++ ev')%list, output :: out, e)
      end
  end.

(** The decoder loop of [startReader] over the tokens of the input: the
    events and the pages sent on [w.InPage], in order.  Nothing in the
    package assigns to [seen]. *)
Fixpoint readTokens (seen : list string) (ts : list Token)
    : list Event * list Page :=
  match ts with
  | [] => ([], [])
  | OtherToken :: ts' => readTokens seen ts'
  | PageElement p :: ts' =>
      let (ev, sent) := readTokens seen ts' in
      if find seen (Title p) then (log_duplicate p :: ev, sent)
      else (ev, p :: sent)
  end.

(** [startReader]. *)
Definition startReader (seen : list string) : list Event * list Page * Exit :=
  match open_input env with
  | None => ([], [], Panicked)
  | Some ts =>
      let (ev, sent) := readTokens seen ts in
      ((ev ++ [EvLog "Reader done"])%list, sent, Returned)
  end.

(** The output file: what has been written, and how many [f.Write] calls
    were made. *)
Record File := {
  content : string;
  writes : nat
}.

(** [f.Write(data)]; [None] is a write error. *)
Definition fwrite (f : File) (data : string) : option File :=
  if write_ok env (writes f)
  then Some {| content := content f ++ data; writes := S (writes f) |}
  else None.

(** The loop [for text := range w.OutText] of [startWriter]; [inr f] is a
    panic with the file as it stood. *)
Fixpoint writeItems (f : File) (items : list string) : File + File :=
  match items with
  | [] => inl f
  | text :: rest =>
      let text := strip text in
      match fwrite f nl with
      | None => inr f
      | Some f1 =>
          match fwrite f1 text with
          | None => inr f1
          | Some f2 => writeItems f2 rest
          end
      end
  end.

(** [startWriter] on the items it receives from [w.OutText], in arrival
    order, up to the close of the channel: the file, and how the goroutine
    ends.  [None] is the file that was never created. *)
Definition startWriter (items : list string) : option File * Exit :=
  if create_output env then
    let f0 := {| content := EmptyString; writes := 0 |} in
    match fwrite f0 head with
    | None => (Some f0, Panicked)
    | Some f1 =>
        match writeItems f1 items with
        | inr f => (Some f, Panicked)
        | inl f2 =>
            match fwrite f2 "</page>" with
            | None => (Some f2, Panicked)
            | Some f3 => (Some f3, Returned)
            end
        end
    end
  else (None, Panicked).

End Stages.

(** ** [Start]: the goroutines and their interleavings

    [Start] runs the reader in the calling goroutine, next to one goroutine
    per worker and one for the writer.  Both channels are unbuffered
    ([make(chan _, 0)]): a send and the matching receive are one joint
    step.  A configuration holds a program point per goroutine and the
    shared state; a schedule is a list of actions, each naming the goroutine
    (or the pair) that moves next. *)

(** Program points of the goroutine that called [Start]. *)
Inductive MainPC :=
| MLoop (i : Z)                          (* the test [i <= w.workerCount] *)
| MGoWriter                              (* [go w.startWriter()] *)
| MOpen                                  (* [os.Open(w.InputFile)] *)
| MToken (ts : list Token)               (* [decoder.Token()], [ts] unread *)
| MSendPage (p : Page) (ts : list Token) (* blocked in [w.InPage <- &p] *)
| MCloseInPage                           (* [close(w.InPage)] *)
| MWait                                  (* [w.wg.Wait()] *)
| MCloseOutText                          (* [close(w.OutText)] *)
| MReturned.

(** Program points of a worker goroutine. *)
Inductive WorkerPC :=
| WAdd                          (* created by [go]; [w.wg.Add(1)] is next *)
| WRecv                         (* blocked in [range w.InPage] *)
| WHave (p : Page)              (* at the top of the loop body *)
| WSendText (output : string)   (* blocked in [w.OutText <- output] *)
| WExiting                      (* behind the loop; [w.wg.Done()] is next *)
| WDone.

(** Program points of the writer goroutine. *)
Inductive WriterPC :=
| WrCreate                      (* [os.Create(w.OutputFile)] *)
| WrHead                        (* [f.Write(head)] *)
| WrRecv                        (* blocked in [range w.OutText] *)
| WrNewline (text : string)     (* item received; the newline is next *)
| WrText (text : string)        (* [f.Write([]byte(text))] *)
| WrTrailer                     (* behind the loop *)
| WrDone.

Record Config := {
  mainPC : MainPC;
  workerPCs : list WorkerPC;       (* in the order of their [go] statements *)
  writerPC : option WriterPC;      (* [None] before [go w.startWriter()] *)
  inPageClosed : bool;
  outTextClosed : bool;
  wg : Z;                          (* the counter of [w.wg] *)
  seen : list string;
  file : option File;              (* [None] before [os.Create] *)
  events : list Event
}.

(** A run is under way, or a panic has ended the process. *)
Inductive State :=
| Running (c : Config)
| Crashed (c : Config).

Inductive Action :=
| StepMain
| StepWorker (i : nat)
| StepWriter
| Handoff (i : nat)     (* [w.InPage]: the reader sends, worker [i] receives *)
| Deliver (i : nat).    (* [w.OutText]: worker [i] sends, the writer receives *)

Definition initial : Config :=
  {| mainPC := MLoop 1;
     workerPCs := [];
     writerPC := None;
     inPageClosed := false;
     outTextClosed := false;
     wg := 0;
     seen := seen0;
     file := None;
     events := [] |}.

Definition set_main (pc : MainPC) (c : Config) : Config :=
  {| mainPC := pc; workerPCs := workerPCs c; writerPC := writerPC c;
     inPageClosed := inPageClosed c; outTextClosed := outTextClosed c;
     wg := wg c; seen := seen c; file := file c; events := events c |}.

Definition set_workers (ws : list WorkerPC) (c : Config) : Config :=
  {| mainPC := mainPC c; workerPCs := ws; writerPC := writerPC c;
     inPageClosed := inPageClosed c; outTextClosed := outTextClosed c;
     wg := wg c; seen := seen c; file := file c; events := events c |}.

Definition set_writer (pc : WriterPC) (c : Config) : Config :=
  {| mainPC := mainPC c; workerPCs := workerPCs c; writerPC := Some pc;
     inPageClosed := inPageClosed c; outTextClosed := outTextClosed c;
     wg := wg c; seen := seen c; file := file c; events := events c |}.

Definition close_InPage (c : Config) : Config :=
  {| mainPC := mainPC c; workerPCs := workerPCs c; writerPC := writerPC c;
     inPageClosed := true; outTextClosed := outTextClosed c;
     wg := wg c; seen := seen c; file := file c; events := events c |}.

Definition close_OutText (c : Config) : Config :=
  {| mainPC := mainPC c; workerPCs := workerPCs c; writerPC := writerPC c;
     inPageClosed := inPageClosed c; outTextClosed := true;
     wg := wg c; seen := seen c; file := file c; events := events c |}.

Definition set_wg (n : Z) (c : Config) : Config :=
  {| mainPC := mainPC c; workerPCs := workerPCs c; writerPC := writerPC c;
     inPageClosed := inPageClosed c; outTextClosed := outTextClosed c;
     wg := n; seen := seen c; file := file c; events := events c |}.

Definition set_file (f : File) (c : Config) : Config :=
  {| mainPC := mainPC c; workerPCs := workerPCs c; writerPC := writerPC c;
     inPageClosed := inPageClosed c; outTextClosed := outTextClosed c;
     wg := wg c; seen := seen c; file := Some f; events := events c |}.

Definition emit (ev : list Event) (c : Config) : Config :=
  {| mainPC := mainPC c; workerPCs := workerPCs c; writerPC := writerPC c;
     inPageClosed := inPageClosed c; outTextClosed := outTextClosed c;
     wg := wg c; seen := seen c; file := file c;
     events := (events c ++ ev)%list |}.

(** [ws[i] = pc]; out of range nothing changes. *)
Fixpoint update (i : nat) (pc : WorkerPC) (ws : list WorkerPC) {struct ws}
    : list WorkerPC :=
  match ws, i with
  | [], _ => []
  | _ :: rest, O => pc :: rest
  | w :: rest, S j => w :: update j pc rest
  end.

Definition set_worker (i : nat) (pc : WorkerPC) (c : Config) : Config :=
  set_workers (update i pc (workerPCs c)) c.

(** The decimal text of an [int], as [log.Println] prints it. *)
Definition itoa (i : Z) : string :=
  NilZero.string_of_int (Z.to_int i).

Section Interleaving.

Variable env : Env.

(** One [f.Write] of the writer, then on to [next]; a write error panics. *)
Definition write_then (data : string) (next : WriterPC) (c : Config)
    : option State :=
  match file c with
  | None => None
  | Some f =>
      match fwrite env f data with
      | None => Some (Crashed c)
      | Some f' => Some (Running (set_writer next (set_file f' c)))
      end
  end.

Definition stepMain (c : Config) : option State :=
  match mainPC c with
  | MLoop i =>
      if (i <=? workerCount env)%Z
      then Some (Running
             (set_main (MLoop (i + 1))
                (set_workers (workerPCs c ++ [WAdd])%list
                   (emit [EvLog ("starting worker: " ++ itoa i)] c))))
      else Some (Running (set_main MGoWriter c))
  | MGoWriter => Some (Running (set_main MOpen (set_writer WrCreate c)))
  | MOpen =>
      match open_input env with
      | None => Some (Crashed c)
      | Some ts => Some (Running (set_main (MToken ts) c))
      end
  | MToken [] => Some (Running (set_main MCloseInPage c))
  | MToken (OtherToken :: ts) => Some (Running (set_main (MToken ts) c))
  | MToken (PageElement p :: ts) =>
      if find (seen c) (Title p)
      then Some (Running (set_main (MToken ts) (emit [log_duplicate p] c)))
      else Some (Running (set_main (MSendPage p ts) c))
  | MSendPage _ _ =>
      (* a send on a closed channel panics *)
      if inPageClosed c then Some (Crashed c) else None
  | MCloseInPage =>
      Some (Running
              (set_main MWait (emit [EvLog "Reader done"] (close_InPage c))))
  | MWait =>
      if (wg c =? 0)%Z then Some (Running (set_main MCloseOutText c)) else None
  | MCloseOutText => Some (Running (set_main MReturned (close_OutText c)))
  | MReturned => None
  end.

Definition stepWorker (i : nat) (c : Config) : option State :=
  match nth_error (workerPCs c) i with
  | None => None
  | Some WAdd => Some (Running (set_worker i WRecv (set_wg (wg c + 1) c)))
  | Some WRecv =>
      if inPageClosed c then Some (Running (set_worker i WExiting c)) else None
  | Some (WHave p) =>
      let (ev, o) := processPage env p in
      match o with
      | Emit output =>
          Some (Running (set_worker i (WSendText output) (emit ev c)))
      | Skip => Some (Running (set_worker i WRecv (emit ev c)))
      | Panic => Some (Crashed (emit ev c))
      end
  | Some (WSendText _) =>
      (* a send on a closed channel panics *)
      if outTextClosed c then Some (Crashed c) else None
  | Some WExiting =>
      (* a negative WaitGroup counter panics *)
      if (wg c - 1 <? 0)%Z then Some (Crashed c)
      else Some (Running
             (set_worker i WDone
                (set_wg (wg c - 1) (emit [EvLog "exiting xml worker"] c))))
  | Some WDone => None
  end.

Definition stepWriter (c : Config) : option State :=
  match writerPC c with
  | None => None
  | Some WrCreate =>
      if create_output env
      then Some (Running
             (set_writer WrHead
                (set_file {| content := EmptyString; writes := 0 |} c)))
      else Some (Crashed c)
  | Some WrHead => write_then head WrRecv c
  | Some WrRecv =>
      if outTextClosed c then Some (Running (set_writer WrTrailer c)) else None
  | Some (WrNewline text) => write_then nl (WrText (strip text)) c
  | Some (WrText text) => write_then text WrRecv c
  | Some WrTrailer =>
      match write_then "</page>" WrDone c with
      | Some (Running c') => Some (Running (emit [EvLog "Writer done"] c'))
      | other => other
      end
  | Some WrDone => None
  end.

Definition handoff (i : nat) (c : Config) : option State :=
  match mainPC c, nth_error (workerPCs c) i with
  | MSendPage p ts, Some WRecv =>
      if inPageClosed c then None
      else Some (Running (set_worker i (WHave p) (set_main (MToken ts) c)))
  | _, _ => None
  end.

Definition deliver (i : nat) (c : Config) : option State :=
  match nth_error (workerPCs c) i, writerPC c with
  | Some (WSendText output), Some WrRecv =>
      if outTextClosed c then None
      else Some (Running (set_worker i WRecv (set_writer (WrNewline output) c)))
  | _, _ => None
  end.

(** One step of the program under action [a]; [None] when [a] is not
    enabled. *)
Definition step (c : Config) (a : Action) : option State :=
  match a with
  | StepMain => stepMain c
  | StepWorker i => stepWorker i c
  | StepWriter => stepWriter c
  | Handoff i => handoff i c
  | Deliver i => deliver i c
  end.

(** A schedule, run from state [st]; nothing moves after a crash. *)
Fixpoint run (st : State) (sched : list Action) : option State :=
  match sched with
  | [] => Some st
  | a :: rest =>
      match st with
      | Crashed _ => None
      | Running c =>
          match step c a with
          | None => None
          | Some st' => run st' rest
          end
      end
  end.

End Interleaving.

(** The states some schedule reaches from the start of [Start]. *)
Definition reachable (env : Env) (st : State) : Prop :=
  exists sched, run env (Running initial) sched = Some st.

(** ** Vocabulary of the statements *)

(** The replacement scan without a budget, as [strings.ReplaceAll] runs it
    for a non-empty [old] that differs from [new]. *)
Definition scanAll (old new : string) (skip : nat) (s : string) : string :=
  strings.replaceScan old new None skip s.

(** Whether byte [c] occurs in [s]. *)
Fixpoint occurs (c : ascii) (s : string) : bool :=
  match s with
  | EmptyString => false
  | String d s' => Ascii.eqb d c || occurs c s'
  end.

(** A link symbol: [Open] is the opening pair, [Close] the closing pair. *)
Inductive Delim :=
| Open
| Close.

Definition link (d : Delim) : string :=
  match d with
  | Open => "[["
  | Close => "]]"
  end.

Definition sentinel (d : Delim) : string :=
  match d with
  | Open => SPEC_START
  | Close => SPEC_END
  end.

(** A text laid out as segments with a token behind each, and a last
    segment. *)
Fixpoint render (tok : Delim -> string) (parts : list (string * Delim))
    (last : string) : string :=
  match parts with
  | [] => last
  | (seg, d) :: rest => seg ++ tok d ++ render tok rest last
  end.

(** No sentinel occurs in [s]. *)
Definition sentinel_free (s : string) : bool :=
  negb (strings.Contains s SPEC_START) && negb (strings.Contains s SPEC_END).

(** The first byte of [s] starts none of the four tokens. *)
Definition plain (s : string) : Prop :=
  strings.HasPrefix s "[[" = false /\ strings.HasPrefix s "]]" = false /\
  strings.HasPrefix s SPEC_START = false /\
  strings.HasPrefix s SPEC_END = false.

(** The inputs the parse script was run on, in a trace. *)
Fixpoint execs (ev : list Event) : list string :=
  match ev with
  | [] => []
  | EvExec stdin :: rest => stdin :: execs rest
  | _ :: rest => execs rest
  end.

(** The serializer calls in a trace. *)
Fixpoint marshals (ev : list Event) : list (Marshaller * Page) :=
  match ev with
  | [] => []
  | EvMarshal m p :: rest => (m, p) :: marshals rest
  | _ :: rest => marshals rest
  end.

(** What the worker does with the answer of a serializer. *)
Definition serialized (env : Env) (m : Marshaller) (p : Page) : Outcome :=
  snd (marshal_or_panic env m p).

(** What the writer appends for the items it receives. *)
Fixpoint written (items : list string) : string :=
  match items with
  | [] => EmptyString
  | text :: rest => nl ++ strip text ++ written rest
  end.

(** Whether a serializer call indents: [xml.Marshal] never does,
    [xml.MarshalIndent] does unless both its strings are empty. *)
Definition indents (m : Marshaller) : bool :=
  match m with
  | Marshal => false
  | MarshalIndent prefix indent =>
      negb (String.eqb prefix EmptyString && String.eqb indent EmptyString)
  end.

(** [String.concat] with an empty separator. *)
Definition concat_all (parts : list string) : string :=
  String.concat EmptyString parts.

(** ** Sample data for the examples *)

Definition sample_page (title text : string) : Page :=
  {| XMLName := {| Name_Space := EmptyString; Name_Local := "page" |};
     Text := EmptyString;
     Title := title;
     Ns := "0";
     ID := "1";
     Redirect :=
       {| Redirect_Text := EmptyString; Redirect_Title := EmptyString |};
     Revision :=
       {| Revision_Chardata := EmptyString;
          Revision_ID := "2";
          Revision_Parentid := "3";
          Revision_Timestamp := "2020-05-01T00:00:00Z";
          Revision_Contributor :=
            {| Contributor_Text := EmptyString;
               Contributor_Username := "Editor";
               Contributor_ID := "4" |};
          Revision_Comment := "edit";
          Revision_Model := "wikitext";
          Revision_Format := "text/x-wiki";
          Revision_Text :=
            {| Text_Text := text;
               Text_Bytes := "7";
               Text_Space := "preserve" |};
          Revision_Sha1 := "c0ffee" |} |}.

(** A small stand-in for the serializers, enough to read the examples; it
    prints the title and the body only. *)
Definition sample_marshal (m : Marshaller) (p : Page) : option string :=
  match m with
  | Marshal =>
      Some ("<page><title>" ++ Title p ++ "</title><text>" ++ body p
            ++ "</text></page>")
  | MarshalIndent prefix indent =>
      Some (prefix ++ "<page>" ++ nl
            ++ prefix ++ indent ++ "<title>" ++ Title p ++ "</title>" ++ nl
            ++ prefix ++ indent ++ "<text>" ++ body p ++ "</text>" ++ nl
            ++ prefix ++ "</page>")
  end.

(** A world where every system call succeeds. *)
Definition sample_env (ts : list Token) (script : string -> option string)
    (n : Z) : Env :=
  {| open_input := Some ts;
     create_output := true;
     write_ok := fun _ => true;
     parse_script := script;
     xml_marshal := sample_marshal;
     workerCount := n |}.

(** A parse script that copies its input. *)
Definition copy_script (stdin : string) : option string := Some stdin.

(** The parse script of scenario C. *)
Definition greeting_script (stdin : string) : option string :=
  if String.eqb stdin "Hello <SPEC_START>World<SPEC_END>."
  then Some "Hi <SPEC_START>World<SPEC_END>."
  else Some stdin.


(** A world where every system call fails. *)
Definition failing_env : Env :=
  {| open_input := None;
     create_output := false;
     write_ok := fun _ => false;
     parse_script := copy_script;
     xml_marshal := fun _ _ => None;
     workerCount := 1 |}.

(** The pages of the scenarios of the design document. *)
Definition dog_animal : Page := sample_page "Dog" "Animal.".
Definition dog_other : Page := sample_page "Dog" "Other.".
Definition cat_redirect : Page := sample_page "Cat" "#REDIRECT [[Cat]]".
Definition hello_world : Page := sample_page "Hello" "Hello [[World]].".
Definition literal_sentinel : Page := sample_page "Doc" "use <SPEC_START> here".

(** A configuration in the middle of a run: the reader is about to open the
    input, the writer about to create the output, worker 0 holds a page. *)
Definition midway (p : Page) : Config :=
  {| mainPC := MOpen;
     workerPCs := [WHave p];
     writerPC := Some WrCreate;
     inPageClosed := false;
     outTextClosed := false;
     wg := 1;
     seen := seen0;
     file := None;
     events := [] |}.

(** The same with the output file open and the writer at program point
    [pc]. *)
Definition writing (pc : WriterPC) (p : Page) : Config :=
  set_writer pc (set_file {| content := head; writes := 1 |} (midway p)).

(** The schedule in which the reader runs to its end before the worker
    goroutine gets its first step. *)
Definition late_worker_schedule : list Action :=
  [StepMain; StepMain; StepMain; StepMain; StepMain; StepMain; StepMain;
   StepMain].

(** A schedule for one worker and two pages, run to the end. *)
Definition two_page_schedule : list Action :=
  [StepMain; StepMain; StepMain; StepMain; StepWorker 0; StepWriter;
   StepWriter;
   StepMain; Handoff 0; StepWorker 0; Deliver 0; StepWriter; StepWriter;
   StepMain; Handoff 0; StepWorker 0; Deliver 0; StepWriter; StepWriter;
   StepMain; StepMain; StepWorker 0; StepWorker 0; StepMain; StepMain;
   StepWriter; StepWriter].

(** A schedule that ends with the worker blocked in its first send. *)
Definition first_send_schedule : list Action :=
  [StepMain; StepMain; StepMain; StepMain; StepWorker 0; StepWriter;
   StepWriter; StepMain; Handoff 0; StepWorker 0].

(** The configuration a schedule leads to ([initial] when it cannot run or
    crashes). *)
Definition config_after (env : Env) (sched : list Action) : Config :=
  match run env (Running initial) sched with
  | Some (Running c) => c
  | _ => initial
  end.

(** A worker between its [w.wg.Add(1)] and its [w.wg.Done()]. *)
Definition active (pc : WorkerPC) : bool :=
  match pc with
  | WRecv | WHave _ | WSendText _ | WExiting => true
  | WAdd | WDone => false
  end.

(** A worker that holds a page or a result not yet sent. *)
Definition holds_work (pc : WorkerPC) : bool :=
  match pc with
  | WHave _ | WSendText _ => true
  | _ => false
  end.

Fixpoint count_active (ws : list WorkerPC) : nat :=
  match ws with
  | [] => 0
  | pc :: rest => (if active pc then 1 else 0) + count_active rest
  end.

(** The caller of [Start] has come back from [w.wg.Wait()]. *)
Definition past_wait (pc : MainPC) : bool :=
  match pc with
  | MCloseOutText | MReturned => true
  | _ => false
  end.

(** What holds in every configuration of a run: the counter of the wait
    group is the number of active workers; once the caller is past the
    barrier no worker holds work; and the result queue is closed only by
    the last statement of [Start]. *)
Definition invariant (n : Z) (ws : list WorkerPC) (m : MainPC)
    (closed : bool) : Prop :=
  n = Z.of_nat (count_active ws)
  /\ (past_wait m = true -> forallb (fun pc => negb (holds_work pc)) ws = true)
  /\ (closed = true -> m = MReturned).

Definition Inv (c : Config) : Prop :=
  invariant (wg c) (workerPCs c) (mainPC c) (outTextClosed c).

(** ** Vocabulary of the further properties *)

(** The pages among the tokens of an input, in order. *)
Fixpoint pages_of (ts : list Token) : list Page :=
  match ts with
  | [] => []
  | PageElement p :: rest => p :: pages_of rest
  | OtherToken :: rest => pages_of rest
  end.

(** The title of a page is, or is not, in a slice of titles. *)
Definition known (titles : list string) (p : Page) : bool :=
  find titles (Title p).

Definition fresh (titles : list string) (p : Page) : bool :=
  negb (find titles (Title p)).

(** What a run of [startWorker] sent, and how it ended. *)
Definition sent (r : list Event * list string * Exit) : list string :=
  snd (fst r).

Definition ended (r : list Event * list string * Exit) : Exit := snd r.

(** Whether an input holds a page. *)
Definition has_page (ts : list Token) : bool :=
  match pages_of ts with
  | [] => false
  | _ :: _ => true
  end.

(** The reader has closed the handoff queue. *)
Definition reader_done (pc : MainPC) : bool :=
  match pc with
  | MWait | MCloseOutText | MReturned => true
  | _ => false
  end.

(** The caller of [Start] is at or before a send of a page that is still
    to come. *)
Definition before_a_send (pc : MainPC) : bool :=
  match pc with
  | MLoop _ | MGoWriter | MOpen | MSendPage _ _ => true
  | MToken ts => has_page ts
  | _ => false
  end.





(** The writer has not come to its trailer. *)
Definition writer_before_trailer (pc : option WriterPC) : bool :=
  match pc with
  | Some WrTrailer | Some WrDone => false
  | _ => true
  end.

(** What a run without workers keeps: no worker, no title seen, both queues
    open, and the caller at or before the send of a page. *)
Definition starved (c : Config) : Prop :=
  workerPCs c = [] /\ seen c = [] /\ outTextClosed c = false
  /\ inPageClosed c = false
  /\ before_a_send (mainPC c) = true
  /\ (forall i, mainPC c = MLoop i -> i = 1%Z)
  /\ writer_before_trailer (writerPC c) = true.

(** A world without workers, and one whose second write fails. *)
Definition no_worker_env (ts : list Token) : Env :=
  sample_env ts copy_script 0.



(** The caller of [Start] has not started the writer yet. *)
Definition spawning (pc : MainPC) : bool :=
  match pc with
  | MLoop _ | MGoWriter => true
  | _ => false
  end.

(** The writer is past [os.Create]. *)
Definition created (pc : option WriterPC) : bool :=
  match pc with
  | None | Some WrCreate => false
  | _ => true
  end.

(** A worker has left its loop over the handoff queue. *)
Definition left_loop (pc : WorkerPC) : bool :=
  match pc with
  | WExiting | WDone => true
  | _ => false
  end.

Definition returned (pc : WorkerPC) : bool :=
  match pc with
  | WDone => true
  | _ => false
  end.

(** The loop of [Start] counts from one, and has started a worker once its
    counter is past one. *)
Definition loop_index_ok (pc : MainPC) : Prop :=
  match pc with
  | MLoop i => (1 <= i)%Z
  | _ => True
  end.

Definition spawned (pc : MainPC) : bool :=
  match pc with
  | MLoop i => (2 <=? i)%Z
  | _ => true
  end.

Definition has_worker (ws : list WorkerPC) : bool :=
  match ws with
  | [] => false
  | _ :: _ => true
  end.

(** Every goroutine has returned. *)
Definition finished (c : Config) : bool :=
  match mainPC c, writerPC c with
  | MReturned, Some WrDone => forallb returned (workerPCs c)
  | _, _ => false
  end.

(** What a run keeps besides [Inv], towards the absence of deadlocks. *)
Definition Live (c : Config) : Prop :=
  (writerPC c = None -> spawning (mainPC c) = true)
  /\ (created (writerPC c) = true -> file c <> None)
  /\ (writer_before_trailer (writerPC c) = false -> outTextClosed c = true)
  /\ (inPageClosed c = false ->
      forallb (fun pc => negb (left_loop pc)) (workerPCs c) = true)
  /\ (mainPC c = MReturned -> outTextClosed c = true)
  /\ loop_index_ok (mainPC c)
  /\ (spawned (mainPC c) = true -> has_worker (workerPCs c) = true).

(** * Properties *)

(** ** [strings.Replace] on small inputs *)

Example ReplaceAll_links :
  strings.ReplaceAll "Hello [[World]]." "[[" "<SPEC_START>"
  = "Hello <SPEC_START>World]].".
Proof. reflexivity. Qed.

Example ReplaceAll_overlap :
  strings.ReplaceAll "[[[x" "[[" "<>" = "<>[x".
Proof. reflexivity. Qed.

Example ReplaceAll_leftmost : strings.ReplaceAll "aaa" "aa" "b" = "ba".
Proof. reflexivity. Qed.

Example escape_unescape_scenario_C :
  escape "Hello [[World]]." = "Hello <SPEC_START>World<SPEC_END>."
  /\ unescape "Hi <SPEC_START>World<SPEC_END>." = "Hi [[World]].".
Proof. split; reflexivity. Qed.

Example Replace_limit :
  strings.Replace "aXbXcX" "X" "--" 2 = "a--b--cX".
Proof. reflexivity. Qed.

Example Replace_empty_old :
  strings.Replace "ab" EmptyString "-" (-1) = "-a-b-".
Proof. reflexivity. Qed.

(** ** Strings *)

Lemma append_nil_r (s : string) : s ++ EmptyString = s.
Proof. induction s as [|c s IH]; simpl; [reflexivity | now rewrite IH]. Qed.

Lemma append_assoc (a b c : string) : (a ++ b) ++ c = a ++ (b ++ c).
Proof. induction a as [|x a IH]; simpl; [reflexivity | now rewrite IH]. Qed.

Lemma length_append (a b : string) :
  String.length (a ++ b) = String.length a + String.length b.
Proof. induction a as [|x a IH]; simpl; [reflexivity | now rewrite IH]. Qed.

Lemma HasPrefix_nil (s : string) : strings.HasPrefix s EmptyString = true.
Proof. reflexivity. Qed.

Lemma HasPrefix_append (p t : string) : strings.HasPrefix (p ++ t) p = true.
Proof.
  induction p as [|c p IH]; simpl.
  - reflexivity.
  - now rewrite Ascii.eqb_refl, IH.
Qed.

(** A text with prefix [p] is [p] followed by a rest. *)
Lemma HasPrefix_split (p s : string) :
  strings.HasPrefix s p = true -> exists t, s = p ++ t.
Proof.
  revert s; induction p as [|c p IH]; intros s H.
  - exists s; reflexivity.
  - destruct s as [|d s]; simpl in H; [discriminate|].
    apply andb_true_iff in H as [Hc Hp].
    apply Ascii.eqb_eq in Hc; subst d.
    destruct (IH _ Hp) as [t ->].
    exists t; reflexivity.
Qed.

(** A prefix of [x] is a prefix of every extension of [x]. *)
Lemma HasPrefix_extend (p x y : string) :
  strings.HasPrefix x p = true -> strings.HasPrefix (x ++ y) p = true.
Proof.
  revert x; induction p as [|c p IH]; intros x H.
  - reflexivity.
  - destruct x as [|d x]; simpl in *; [discriminate|].
    apply andb_true_iff in H as [Hc Hp].
    now rewrite Hc, IH.
Qed.

(** A byte that does not occur in [p] stops every match of [p]: a match of
    [p] in front of [x ++ c :: z] lies inside [x]. *)
Lemma HasPrefix_barrier (p x : string) (c : ascii) (z : string) :
  occurs c p = false ->
  strings.HasPrefix (x ++ String c z) p = true ->
  strings.HasPrefix x p = true /\ String.length p <= String.length x.
Proof.
  revert x; induction p as [|d p IH]; intros x Hc H.
  - split; [reflexivity | simpl; lia].
  - simpl in Hc. apply orb_false_iff in Hc as [Hd Hp].
    destruct x as [|e x]; simpl in H.
    + rewrite Ascii.eqb_sym, Hd in H. discriminate.
    + apply andb_true_iff in H as [He Hx].
      destruct (IH x Hp Hx) as [H1 H2].
      simpl. rewrite He, H1. split; [reflexivity | lia].
Qed.

(** ** The replacement scan *)

Section Scan.

Variables (o : ascii) (old' new : string).

Local Abbreviation old := (String o old').

Lemma scanAll_nil (k : nat) : scanAll old new k EmptyString = EmptyString.
Proof. destruct k; reflexivity. Qed.

Lemma scanAll_skip (k : nat) (c : ascii) (s : string) :
  scanAll old new (S k) (String c s) = scanAll old new k s.
Proof. reflexivity. Qed.

Lemma scanAll_hit (c : ascii) (s : string) :
  strings.HasPrefix (String c s) old = true ->
  scanAll old new 0 (String c s)
  = new ++ scanAll old new (String.length old') s.
Proof. intros H. unfold scanAll. simpl in *. now rewrite H. Qed.

Lemma scanAll_miss (c : ascii) (s : string) :
  strings.HasPrefix (String c s) old = false ->
  scanAll old new 0 (String c s) = String c (scanAll old new 0 s).
Proof. intros H. unfold scanAll. simpl in *. now rewrite H. Qed.

(** Skipping [k] bytes is dropping them. *)
Lemma scanAll_skip_append (x y : string) :
  scanAll old new (String.length x) (x ++ y) = scanAll old new 0 y.
Proof.
  induction x as [|c x IH]; simpl; [reflexivity|].
  now rewrite scanAll_skip.
Qed.

(** An occurrence in front is replaced, and the scan goes on behind it. *)
Lemma scanAll_prefix (t : string) :
  scanAll old new 0 (old ++ t) = new ++ scanAll old new 0 t.
Proof.
  change (String o old' ++ t) with (String o (old' ++ t)).
  rewrite scanAll_hit.
  - now rewrite scanAll_skip_append.
  - apply (HasPrefix_append old t).
Qed.

(** The scan starts afresh at a byte that occurs in [old] at most as its
    first byte. *)
Lemma scanAll_barrier (c : ascii) (z x : string) (k : nat) :
  occurs c old' = false ->
  k <= String.length x ->
  scanAll old new k (x ++ String c z)
  = scanAll old new k x ++ scanAll old new 0 (String c z).
Proof.
  intros Hc. revert k.
  induction x as [|e x IH]; intros k Hk.
  - simpl in Hk. replace k with 0 by lia. reflexivity.
  - destruct k as [|k].
    + destruct (strings.HasPrefix (String e x ++ String c z) old) eqn:Hp.
      * assert (Hx : strings.HasPrefix (String e x) old = true
                     /\ String.length old' <= String.length x).
        { simpl in Hp. apply andb_true_iff in Hp as [He Hp].
          destruct (HasPrefix_barrier old' x c z Hc Hp) as [H1 H2].
          simpl. rewrite He, H1. split; [reflexivity | assumption]. }
        destruct Hx as [Hx Hlen].
        change (String e x ++ String c z)
          with (String e (x ++ String c z)) in *.
        rewrite (scanAll_hit e (x ++ String c z) Hp), (scanAll_hit e x Hx).
        rewrite IH by assumption.
        now rewrite append_assoc.
      * assert (Hx : strings.HasPrefix (String e x) old = false).
        { destruct (strings.HasPrefix (String e x) old) eqn:E; [|reflexivity].
          rewrite (HasPrefix_extend old (String e x) (String c z) E) in Hp.
          discriminate. }
        change (String e x ++ String c z)
          with (String e (x ++ String c z)) in *.
        rewrite (scanAll_miss e (x ++ String c z) Hp), (scanAll_miss e x Hx).
        rewrite IH by lia. reflexivity.
    + simpl. rewrite !scanAll_skip. apply IH. simpl in Hk. lia.
Qed.

(** Where [old] does not occur, nothing changes. *)
Lemma scanAll_absent (s : string) :
  strings.Contains s old = false -> scanAll old new 0 s = s.
Proof.
  induction s as [|c s IH]; intros H; [reflexivity|].
  simpl in H. apply orb_false_iff in H as [Hp Hs].
  rewrite scanAll_miss by exact Hp.
  now rewrite IH.
Qed.

End Scan.

(** A test for a prefix [t] that holds neither the first byte of [old] nor
    the first byte of [new] gives the same answer before and behind the
    scan. *)
Lemma HasPrefix_scanAll (o n : ascii) (old' new' t s : string) :
  occurs o t = false ->
  occurs n t = false ->
  strings.HasPrefix (scanAll (String o old') (String n new') 0 s) t
  = strings.HasPrefix s t.
Proof.
  revert s; induction t as [|c t IH]; intros s Ho Hn.
  - now rewrite !HasPrefix_nil.
  - simpl in Ho, Hn.
    apply orb_false_iff in Ho as [Hco Ho].
    apply orb_false_iff in Hn as [Hcn Hn].
    destruct s as [|d s]; [reflexivity|].
    destruct (strings.HasPrefix (String d s) (String o old')) eqn:Hp.
    + rewrite (scanAll_hit o old' (String n new') d s Hp).
      simpl. rewrite Ascii.eqb_sym, Hcn. simpl.
      simpl in Hp. apply andb_true_iff in Hp as [Hd _].
      apply Ascii.eqb_eq in Hd; subst d.
      now rewrite Ascii.eqb_sym, Hco.
    + rewrite (scanAll_miss o old' (String n new') d s Hp).
      simpl. now rewrite IH.
Qed.

(** The scan never makes a text longer when [new] is no longer than
    [old]. *)
Lemma scanAll_length (o : ascii) (old' new s : string) (k : nat) :
  String.length new <= S (String.length old') ->
  String.length (scanAll (String o old') new k s) + Nat.min k (String.length s)
  <= String.length s.
Proof.
  intros Hn. revert k.
  induction s as [|c s IH]; intros k.
  - rewrite scanAll_nil. simpl. lia.
  - destruct k as [|k].
    + destruct (strings.HasPrefix (String c s) (String o old')) eqn:Hp.
      * rewrite (scanAll_hit o old' new c s Hp), length_append.
        destruct (HasPrefix_split _ _ Hp) as [t Ht].
        simpl in Ht. injection Ht as _ Ht.
        assert (String.length old' <= String.length s)
          by (rewrite Ht, length_append; lia).
        specialize (IH (String.length old')). simpl. lia.
      * rewrite (scanAll_miss o old' new c s Hp).
        specialize (IH 0). simpl in *. lia.
    + rewrite scanAll_skip. specialize (IH k). simpl. lia.
Qed.

(** ** The four tokens of the worker *)

Lemma escape_scan (t : string) :
  escape t = scanAll "]]" SPEC_END 0 (scanAll "[[" SPEC_START 0 t).
Proof. reflexivity. Qed.

Lemma unescape_scan (t : string) :
  unescape t = scanAll SPEC_END "]]" 0 (scanAll SPEC_START "[[" 0 t).
Proof. reflexivity. Qed.

Lemma strip_scan (t : string) :
  strip t = scanAll "&#xA;" EmptyString 0 t.
Proof. reflexivity. Qed.

Lemma escape_nil : escape EmptyString = EmptyString.
Proof. reflexivity. Qed.

Lemma escape_open (t : string) : escape ("[[" ++ t) = SPEC_START ++ escape t.
Proof. reflexivity. Qed.

Lemma escape_close (t : string) : escape ("]]" ++ t) = SPEC_END ++ escape t.
Proof. reflexivity. Qed.

Lemma escape_start (t : string) :
  escape (SPEC_START ++ t) = SPEC_START ++ escape t.
Proof. reflexivity. Qed.

Lemma escape_end (t : string) : escape (SPEC_END ++ t) = SPEC_END ++ escape t.
Proof. reflexivity. Qed.

Lemma unescape_nil : unescape EmptyString = EmptyString.
Proof. reflexivity. Qed.

Lemma unescape_open (t : string) : unescape ("[[" ++ t) = "[[" ++ unescape t.
Proof. reflexivity. Qed.

Lemma unescape_close (t : string) : unescape ("]]" ++ t) = "]]" ++ unescape t.
Proof. reflexivity. Qed.

Lemma unescape_start (t : string) :
  unescape (SPEC_START ++ t) = "[[" ++ unescape t.
Proof. reflexivity. Qed.

Lemma unescape_end (t : string) : unescape (SPEC_END ++ t) = "]]" ++ unescape t.
Proof. reflexivity. Qed.

Lemma HasPrefix_cons (d c : ascii) (s p : string) :
  strings.HasPrefix (String d s) (String c p)
  = (Ascii.eqb d c && strings.HasPrefix s p)%bool.
Proof. reflexivity. Qed.

(** Escaping does not change what a text starts with, for a prefix free of
    brackets and of [<]. *)
Lemma HasPrefix_escape (t s : string) :
  occurs "[" t = false -> occurs "]" t = false -> occurs "<" t = false ->
  strings.HasPrefix (escape s) t = strings.HasPrefix s t.
Proof.
  intros H1 H2 H3. rewrite escape_scan.
  unfold SPEC_START, SPEC_END.
  rewrite HasPrefix_scanAll by assumption.
  now rewrite HasPrefix_scanAll by assumption.
Qed.

Lemma escape_plain (c : ascii) (t : string) :
  strings.HasPrefix (String c t) "[[" = false ->
  strings.HasPrefix (String c t) "]]" = false ->
  escape (String c t) = String c (escape t).
Proof.
  intros H1 H2. rewrite !escape_scan.
  rewrite (scanAll_miss "[" "[" SPEC_START c t H1).
  rewrite scanAll_miss; [reflexivity|].
  rewrite HasPrefix_cons. unfold SPEC_START.
  rewrite HasPrefix_scanAll by reflexivity.
  exact H2.
Qed.

Lemma unescape_plain (c : ascii) (t : string) :
  strings.HasPrefix (String c t) SPEC_START = false ->
  strings.HasPrefix (String c t) SPEC_END = false ->
  unescape (String c t) = String c (unescape t).
Proof.
  intros H1 H2. rewrite !unescape_scan.
  unfold SPEC_START in *.
  rewrite (scanAll_miss "<" "SPEC_START>" "[[" c t H1).
  unfold SPEC_END in *.
  rewrite scanAll_miss; [reflexivity|].
  rewrite HasPrefix_cons.
  rewrite HasPrefix_scanAll by reflexivity.
  exact H2.
Qed.

(** Every text is empty, starts with one of the four tokens, or starts with
    a plain byte. *)
Lemma token_cases (s : string) :
  s = EmptyString
  \/ (exists t, s = "[[" ++ t)
  \/ (exists t, s = "]]" ++ t)
  \/ (exists t, s = SPEC_START ++ t)
  \/ (exists t, s = SPEC_END ++ t)
  \/ (exists c t, s = String c t /\ plain s).
Proof.
  destruct s as [|c s]; [now left | right].
  destruct (strings.HasPrefix (String c s) "[[") eqn:E1;
    [left; exact (HasPrefix_split _ _ E1) | right].
  destruct (strings.HasPrefix (String c s) "]]") eqn:E2;
    [left; exact (HasPrefix_split _ _ E2) | right].
  destruct (strings.HasPrefix (String c s) SPEC_START) eqn:E3;
    [left; exact (HasPrefix_split _ _ E3) | right].
  destruct (strings.HasPrefix (String c s) SPEC_END) eqn:E4;
    [left; exact (HasPrefix_split _ _ E4) | right].
  exists c, s. repeat split; assumption.
Qed.

(** Induction along the tokens of a text. *)
Lemma token_ind (Q : string -> Prop) :
  Q EmptyString ->
  (forall t, Q t -> Q ("[[" ++ t)) ->
  (forall t, Q t -> Q ("]]" ++ t)) ->
  (forall t, Q t -> Q (SPEC_START ++ t)) ->
  (forall t, Q t -> Q (SPEC_END ++ t)) ->
  (forall c t, plain (String c t) -> Q t -> Q (String c t)) ->
  forall s, Q s.
Proof.
  intros Hnil Hopen Hclose Hstart Hend Hplain s.
  remember (String.length s) as n eqn:Hn.
  assert (Hle : String.length s <= n) by lia. clear Hn.
  revert s Hle. induction n as [|n IH]; intros s Hle.
  - destruct s; [exact Hnil | simpl in Hle; lia].
  - destruct (token_cases s)
      as [-> | [[t ->] | [[t ->] | [[t ->] | [[t ->] | [c [t [-> Hp]]]]]]]].
    + exact Hnil.
    + apply Hopen, IH. simpl in Hle. lia.
    + apply Hclose, IH. simpl in Hle. lia.
    + apply Hstart, IH. simpl in Hle. lia.
    + apply Hend, IH. simpl in Hle. lia.
    + apply Hplain; [exact Hp|]. apply IH. simpl in Hle. lia.
Qed.

(** Unescaping an escaped text is unescaping the text: the sentinels that
    escaping writes and the ones the text held are turned into link symbols
    alike. *)
Lemma unescape_escape (b : string) : unescape (escape b) = unescape b.
Proof.
  induction b as [|t IH|t IH|t IH|t IH|c t Hp IH] using token_ind.
  - reflexivity.
  - now rewrite escape_open, unescape_start, unescape_open, IH.
  - now rewrite escape_close, unescape_end, unescape_close, IH.
  - now rewrite escape_start, !unescape_start, IH.
  - now rewrite escape_end, !unescape_end, IH.
  - destruct Hp as (H1 & H2 & H3 & H4).
    rewrite (escape_plain c t H1 H2).
    rewrite (unescape_plain c t H3 H4).
    rewrite unescape_plain.
    + now rewrite IH.
    + unfold SPEC_START in *. rewrite HasPrefix_cons.
      rewrite HasPrefix_escape by reflexivity. exact H3.
    + unfold SPEC_END in *. rewrite HasPrefix_cons.
      rewrite HasPrefix_escape by reflexivity. exact H4.
Qed.

Lemma unescape_length (b : string) :
  String.length (unescape b) <= String.length b.
Proof.
  rewrite unescape_scan. unfold SPEC_START, SPEC_END.
  pose proof (scanAll_length "<" "SPEC_START>" "[[" b 0) as H1.
  pose proof (scanAll_length "<" "SPEC_END>" "]]"
                (scanAll "<SPEC_START>" "[[" 0 b) 0) as H2.
  simpl in H1, H2. lia.
Qed.

(** A text without sentinels is left as it is. *)
Lemma unescape_sentinel_free (b : string) :
  sentinel_free b = true -> unescape b = b.
Proof.
  unfold sentinel_free. intros H.
  apply andb_true_iff in H as [H1 H2].
  apply negb_true_iff in H1. apply negb_true_iff in H2.
  rewrite unescape_scan. unfold SPEC_START, SPEC_END in *.
  rewrite (scanAll_absent "<" "SPEC_START>" "[[" b H1).
  now rewrite (scanAll_absent "<" "SPEC_END>" "]]" b H2).
Qed.

(** Unescaping works token by token: a sentinel becomes its link symbol
    whatever stands around it. *)
Lemma unescape_sentinel (d : Delim) (x y : string) :
  unescape (x ++ sentinel d ++ y) = unescape x ++ link d ++ unescape y.
Proof.
  rewrite !unescape_scan. unfold SPEC_START, SPEC_END.
  destruct d; simpl sentinel; simpl link; unfold SPEC_START, SPEC_END.
  - change ("<SPEC_START>" ++ y) with (String "<" ("SPEC_START>" ++ y)).
    rewrite (scanAll_barrier "<" "SPEC_START>" "[[" "<")
      by (reflexivity || lia).
    change (scanAll "<SPEC_START>" "[[" 0 (String "<" ("SPEC_START>" ++ y)))
      with (String "[" (String "[" (scanAll "<SPEC_START>" "[[" 0 y))).
    rewrite (scanAll_barrier "<" "SPEC_END>" "]]" "[") by (reflexivity || lia).
    reflexivity.
  - change ("<SPEC_END>" ++ y) with (String "<" ("SPEC_END>" ++ y)).
    rewrite (scanAll_barrier "<" "SPEC_START>" "[[" "<")
      by (reflexivity || lia).
    change (scanAll "<SPEC_START>" "[[" 0 (String "<" ("SPEC_END>" ++ y)))
      with (String "<" ("SPEC_END>" ++ scanAll "<SPEC_START>" "[[" 0 y)).
    rewrite (scanAll_barrier "<" "SPEC_END>" "]]" "<") by (reflexivity || lia).
    reflexivity.
Qed.

(** Escaping leaves a sentinel that the text holds where it is. *)
Lemma escape_sentinel (d : Delim) (x y : string) :
  escape (x ++ sentinel d ++ y) = escape x ++ sentinel d ++ escape y.
Proof.
  rewrite !escape_scan.
  destruct d; simpl sentinel; unfold SPEC_START, SPEC_END.
  - change ("<SPEC_START>" ++ y) with (String "<" ("SPEC_START>" ++ y)).
    rewrite (scanAll_barrier "[" "[" "<SPEC_START>" "<")
      by (reflexivity || lia).
    change (scanAll "[[" "<SPEC_START>" 0 (String "<" ("SPEC_START>" ++ y)))
      with (String "<" ("SPEC_START>" ++ scanAll "[[" "<SPEC_START>" 0 y)).
    rewrite (scanAll_barrier "]" "]" "<SPEC_END>" "<") by (reflexivity || lia).
    reflexivity.
  - change ("<SPEC_END>" ++ y) with (String "<" ("SPEC_END>" ++ y)).
    rewrite (scanAll_barrier "[" "[" "<SPEC_START>" "<")
      by (reflexivity || lia).
    change (scanAll "[[" "<SPEC_START>" 0 (String "<" ("SPEC_END>" ++ y)))
      with (String "<" ("SPEC_END>" ++ scanAll "[[" "<SPEC_START>" 0 y)).
    rewrite (scanAll_barrier "]" "]" "<SPEC_END>" "<") by (reflexivity || lia).
    reflexivity.
Qed.

Lemma Contains_cons (c : ascii) (s p : string) :
  strings.Contains (String c s) p
  = (strings.HasPrefix (String c s) p || strings.Contains s p)%bool.
Proof. reflexivity. Qed.

(** An escaped text starts with a bracket only where the text did. *)
Lemma escape_starts_bracket (c : ascii) (t : string) :
  c = "["%char \/ c = "]"%char ->
  strings.HasPrefix (escape t) (String c EmptyString) = true ->
  strings.HasPrefix t (String c EmptyString) = true.
Proof.
  intros Hc.
  destruct (token_cases t)
    as [-> | [[u ->] | [[u ->] | [[u ->] | [[u ->] | [d [u [-> Hp]]]]]]]].
  - destruct Hc as [-> | ->]; intros H; discriminate H.
  - rewrite escape_open. destruct Hc as [-> | ->]; intros H; discriminate H.
  - rewrite escape_close. destruct Hc as [-> | ->]; intros H; discriminate H.
  - rewrite escape_start. destruct Hc as [-> | ->]; intros H; discriminate H.
  - rewrite escape_end. destruct Hc as [-> | ->]; intros H; discriminate H.
  - destruct Hp as (H1 & H2 & _).
    rewrite (escape_plain d u H1 H2). intros H. exact H.
Qed.

(** Every link symbol is replaced: none is left in an escaped text. *)
Lemma escape_no_links (b : string) :
  strings.Contains (escape b) "[[" = false
  /\ strings.Contains (escape b) "]]" = false.
Proof.
  induction b as [|t IH|t IH|t IH|t IH|c t Hp IH] using token_ind.
  - split; reflexivity.
  - rewrite escape_open. set (e := escape t) in *. exact IH.
  - rewrite escape_close. set (e := escape t) in *. exact IH.
  - rewrite escape_start. set (e := escape t) in *. exact IH.
  - rewrite escape_end. set (e := escape t) in *. exact IH.
  - destruct Hp as (H1 & H2 & _). destruct IH as [IH1 IH2].
    rewrite (escape_plain c t H1 H2), !Contains_cons, IH1, IH2, !orb_false_r.
    rewrite !HasPrefix_cons in *.
    split.
    + destruct (strings.HasPrefix (escape t) "[") eqn:E; [|apply andb_false_r].
      rewrite (escape_starts_bracket "[" t (or_introl eq_refl) E) in H1.
      exact H1.
    + destruct (strings.HasPrefix (escape t) "]") eqn:E; [|apply andb_false_r].
      rewrite (escape_starts_bracket "]" t (or_intror eq_refl) E) in H2.
      exact H2.
Qed.

(** The leftmost occurrence of a non-empty [p] in a text that holds it. *)
Lemma Contains_first (o : ascii) (p' s : string) :
  strings.Contains s (String o p') = true ->
  exists x y, s = x ++ String o p' ++ y
              /\ strings.Contains x (String o p') = false.
Proof.
  induction s as [|c s IH]; intros H; [discriminate H|].
  rewrite Contains_cons in H.
  destruct (strings.HasPrefix (String c s) (String o p')) eqn:E.
  - destruct (HasPrefix_split _ _ E) as [t Ht].
    exists EmptyString, t. split; [exact Ht | reflexivity].
  - simpl in H. destruct (IH H) as (x & y & -> & Hx).
    exists (String c x), y. split; [reflexivity|].
    rewrite Contains_cons, Hx, orb_false_r.
    destruct (strings.HasPrefix (String c x) (String o p')) eqn:E';
      [|reflexivity].
    pose proof (HasPrefix_extend _ (String c x) (String o p' ++ y) E') as E2.
    change (String c x ++ String o p' ++ y)
      with (String c (x ++ String o p' ++ y)) in E2.
    congruence.
Qed.

(** A text that holds a sentinel is not left as it is. *)
Lemma unescape_shrinks (d : Delim) (x y : string) :
  String.length (unescape (x ++ sentinel d ++ y))
  < String.length (x ++ sentinel d ++ y).
Proof.
  rewrite unescape_sentinel, !length_append.
  pose proof (unescape_length x). pose proof (unescape_length y).
  destruct d; simpl; lia.
Qed.

(** Unescaping a text laid out with sentinels lays it out with link
    symbols, when the segments hold no sentinel. *)
Lemma unescape_render (parts : list (string * Delim)) (last : string) :
  Forall (fun part => sentinel_free (fst part) = true) parts ->
  sentinel_free last = true ->
  unescape (render sentinel parts last) = render link parts last.
Proof.
  intros Hparts Hlast.
  induction Hparts as [|[seg d] rest Hseg _ IH]; simpl.
  - now apply unescape_sentinel_free.
  - rewrite unescape_sentinel, IH.
    simpl in Hseg. now rewrite (unescape_sentinel_free seg Hseg).
Qed.

(** ** The writer's clean-up *)

Lemma strip_token (x y : string) :
  strip (x ++ "&#xA;" ++ y) = strip x ++ strip y.
Proof.
  rewrite !strip_scan.
  change ("&#xA;" ++ y) with (String "&" ("#xA;" ++ y)).
  rewrite (scanAll_barrier "&" "#xA;" EmptyString "&") by (reflexivity || lia).
  reflexivity.
Qed.

Lemma strip_absent (x : string) :
  strings.Contains x "&#xA;" = false -> strip x = x.
Proof. intros H. rewrite strip_scan. now apply scanAll_absent. Qed.

(** Every item is a sequence of token-free pieces with the token between
    them; what is left of it is the pieces. *)
Lemma strip_pieces (t : string) :
  exists parts,
    parts <> []
    /\ t = String.concat "&#xA;" parts
    /\ Forall (fun part => strings.Contains part "&#xA;" = false) parts
    /\ strip t = concat_all parts.
Proof.
  remember (String.length t) as n eqn:Hn.
  assert (Hle : String.length t <= n) by lia. clear Hn.
  revert t Hle. induction n as [|n IH]; intros t Hle.
  - destruct t; [|simpl in Hle; lia].
    exists [EmptyString]. repeat split; [discriminate | now constructor].
  - destruct (strings.Contains t "&#xA;") eqn:E.
    + destruct (Contains_first _ _ _ E) as (x & y & -> & Hx).
      rewrite !length_append in Hle. simpl in Hle.
      destruct (IH y ltac:(lia)) as (parts & Hne & Hy & Hfree & Hstrip).
      exists (x :: parts). split; [discriminate|].
      destruct parts as [|p1 rest]; [contradiction|].
      split; [|split].
      * rewrite Hy at 1. reflexivity.
      * now constructor.
      * rewrite strip_token, (strip_absent x Hx), Hstrip. reflexivity.
    + exists [t]. repeat split; [discriminate | now constructor | ].
      rewrite (strip_absent t E). reflexivity.
Qed.

(** ** The worker *)

Lemma set_body_set_body (t u : string) (p : Page) :
  set_body t (set_body u p) = set_body t p.
Proof. reflexivity. Qed.

Lemma body_set_body (t : string) (p : Page) : body (set_body t p) = t.
Proof. reflexivity. Qed.

Lemma set_body_body (p : Page) : set_body (body p) p = p.
Proof.
  destruct p as [? ? ? ? ? ? [? ? ? ? ? ? ? ? [? ? ?] ?]]. reflexivity.
Qed.

(** The loop body of the worker, branch by branch. *)
Lemma processPage_redirect (env : Env) (p : Page) :
  strings.HasPrefix (body p) "#REDIRECT" = true ->
  processPage env p
  = ([log_processing p; EvMarshal Marshal p], serialized env Marshal p).
Proof. intros H. unfold processPage. rewrite H. reflexivity. Qed.

Lemma processPage_failure (env : Env) (p : Page) :
  strings.HasPrefix (body p) "#REDIRECT" = false ->
  parse_script env (escape (body p)) = None ->
  processPage env p
  = ([log_processing p; EvExec (escape (body p)); log_parse_error p], Skip).
Proof.
  intros H1 H2. unfold processPage. rewrite H1.
  change (body (set_body _ (set_body _ p))) with (escape (body p)).
  rewrite H2. reflexivity.
Qed.

Lemma processPage_success (env : Env) (p : Page) (clean : string) :
  strings.HasPrefix (body p) "#REDIRECT" = false ->
  parse_script env (escape (body p)) = Some clean ->
  processPage env p
  = ([log_processing p; EvExec (escape (body p));
      EvMarshal (MarshalIndent "  " "    ") (set_body (unescape clean) p)],
     serialized env (MarshalIndent "  " "    ") (set_body (unescape clean) p)).
Proof.
  intros H1 H2. unfold processPage. rewrite H1.
  change (body (set_body _ (set_body _ p))) with (escape (body p)).
  rewrite H2. reflexivity.
Qed.

(** C2 (redirect short-circuit).  For a page whose body begins with
    [#REDIRECT] the worker does not run the parse script at all, calls
    [xml.Marshal] on the page exactly as it was received, so with the very
    body of the input, and emits what the serializer returns. *)
Theorem redirect_short_circuit (env : Env) (p : Page) :
  strings.HasPrefix (body p) "#REDIRECT" = true ->
  processPage env p
  = ([log_processing p; EvMarshal Marshal p], serialized env Marshal p)
  /\ execs (fst (processPage env p)) = []
  /\ (forall m q, In (m, q) (marshals (fst (processPage env p))) ->
      q = p /\ body q = body p).
Proof.
  intros H. rewrite (processPage_redirect env p H).
  split; [reflexivity | split; [reflexivity|]].
  intros m q [Hq | []]. injection Hq as _ <-. split; reflexivity.
Qed.

Lemma redirect_short_circuit_witness :
  processPage (sample_env [] copy_script 1) cat_redirect
  = ([log_processing cat_redirect; EvMarshal Marshal cat_redirect],
     Emit "<page><title>Cat</title><text>#REDIRECT [[Cat]]</text></page>")
  /\ execs (fst (processPage (sample_env [] copy_script 1) cat_redirect)) = [].
Proof.
  destruct (redirect_short_circuit (sample_env [] copy_script 1) cat_redirect
              eq_refl) as (H1 & H2 & _).
  split; [exact H1 | exact H2].
Defined.

(** C3 (placeholder round-trip).  On the successful path of a page that is
    no redirect, the worker hands the parse script the body with every link
    symbol replaced by its sentinel (no link symbol is left in it), and
    serializes, indented, the page whose body is the script's output with
    the sentinels turned back.  When the script keeps the sentinel tokens
    of its input, whatever it does to the text between them, the final body
    carries the link symbols of the original body, in the same order,
    around the rewritten text. *)
Theorem placeholder_round_trip (env : Env) (p : Page) (clean : string)
    (parts parts' : list (string * Delim)) (last last' : string) :
  strings.HasPrefix (body p) "#REDIRECT" = false ->
  parse_script env (escape (body p)) = Some clean ->
  escape (body p) = render sentinel parts last ->
  Forall (fun part => sentinel_free (fst part) = true) parts ->
  sentinel_free last = true ->
  clean = render sentinel parts' last' ->
  map snd parts' = map snd parts ->
  Forall (fun part => sentinel_free (fst part) = true) parts' ->
  sentinel_free last' = true ->
  processPage env p
  = ([log_processing p; EvExec (escape (body p));
      EvMarshal (MarshalIndent "  " "    ") (set_body (unescape clean) p)],
     serialized env (MarshalIndent "  " "    ") (set_body (unescape clean) p))
  /\ strings.Contains (escape (body p)) "[[" = false
  /\ strings.Contains (escape (body p)) "]]" = false
  /\ unescape (body p) = render link parts last
  /\ (sentinel_free (body p) = true -> body p = render link parts last)
  /\ body (set_body (unescape clean) p) = render link parts' last'.
Proof.
  intros Hred Hrun Hin Hparts Hlast Hout _ Hparts' Hlast'.
  assert (Hbody : unescape (body p) = render link parts last).
  { rewrite <- unescape_escape, Hin. now apply unescape_render. }
  split; [now apply processPage_success|].
  split; [apply escape_no_links|].
  split; [apply escape_no_links|].
  split; [exact Hbody|].
  split.
  - intros Hfree. now rewrite <- Hbody, (unescape_sentinel_free _ Hfree).
  - rewrite body_set_body, Hout. now apply unescape_render.
Qed.

Lemma placeholder_round_trip_witness :
  processPage (sample_env [] greeting_script 1) hello_world
  = ([log_processing hello_world;
      EvExec "Hello <SPEC_START>World<SPEC_END>.";
      EvMarshal (MarshalIndent "  " "    ")
        (set_body "Hi [[World]]." hello_world)],
     serialized (sample_env [] greeting_script 1) (MarshalIndent "  " "    ")
       (set_body "Hi [[World]]." hello_world))
  /\ body hello_world = "Hello [[World]]."
  /\ body (set_body (unescape "Hi <SPEC_START>World<SPEC_END>.") hello_world)
     = "Hi [[World]].".
Proof.
  destruct (placeholder_round_trip (sample_env [] greeting_script 1)
              hello_world "Hi <SPEC_START>World<SPEC_END>."
              [("Hello ", Open); ("World", Close)]
              [("Hi ", Open); ("World", Close)] "." "."
              eq_refl eq_refl eq_refl
              ltac:(repeat constructor) eq_refl eq_refl eq_refl
              ltac:(repeat constructor) eq_refl)
    as (H1 & _ & _ & _ & H5 & H6).
  split; [exact H1 | split; [exact (H5 eq_refl) | exact H6]].
Defined.

(** C5 (frame).  Whatever the worker emits for a page is the serialization
    of a page that differs from the decoded one in the body at most: title
    (the identifier), namespace, ids, redirect, revision id, timestamp,
    contributor, comment and sha1 are those of the input, and the body is
    either the input's (redirects) or the unescaped output of the script,
    put in place of it once; the sha1 is the input's in both cases. *)
Theorem worker_preserves_metadata (env : Env) (p : Page) (output : string) :
  snd (processPage env p) = Emit output ->
  exists m q,
    marshals (fst (processPage env p)) = [(m, q)]
    /\ xml_marshal env m q = Some output
    /\ q = set_body (body q) p
    /\ (q = p
        \/ exists clean, parse_script env (escape (body p)) = Some clean
                         /\ q = set_body (unescape clean) p)
    /\ XMLName q = XMLName p /\ Text q = Text p /\ Title q = Title p
    /\ Ns q = Ns p /\ ID q = ID p /\ Redirect q = Redirect p
    /\ Revision_Chardata (Revision q) = Revision_Chardata (Revision p)
    /\ Revision_ID (Revision q) = Revision_ID (Revision p)
    /\ Revision_Parentid (Revision q) = Revision_Parentid (Revision p)
    /\ Revision_Timestamp (Revision q) = Revision_Timestamp (Revision p)
    /\ Revision_Contributor (Revision q) = Revision_Contributor (Revision p)
    /\ Revision_Comment (Revision q) = Revision_Comment (Revision p)
    /\ Revision_Model (Revision q) = Revision_Model (Revision p)
    /\ Revision_Format (Revision q) = Revision_Format (Revision p)
    /\ Text_Bytes (Revision_Text (Revision q))
       = Text_Bytes (Revision_Text (Revision p))
    /\ Text_Space (Revision_Text (Revision q))
       = Text_Space (Revision_Text (Revision p))
    /\ Revision_Sha1 (Revision q) = Revision_Sha1 (Revision p).
Proof.
  intros Hemit.
  destruct (strings.HasPrefix (body p) "#REDIRECT") eqn:Hred.
  - rewrite (processPage_redirect env p Hred) in *.
    exists Marshal, p.
    unfold serialized, marshal_or_panic in Hemit. simpl in Hemit.
    destruct (xml_marshal env Marshal p) eqn:Hm; [|discriminate].
    injection Hemit as ->.
    repeat split; try reflexivity.
    + now rewrite set_body_body.
    + now left.
  - destruct (parse_script env (escape (body p))) as [clean|] eqn:Hrun.
    + rewrite (processPage_success env p clean Hred Hrun) in *.
      exists (MarshalIndent "  " "    "), (set_body (unescape clean) p).
      unfold serialized, marshal_or_panic in Hemit. simpl in Hemit.
      destruct (xml_marshal env _ _) eqn:Hm; [|discriminate].
      injection Hemit as ->.
      repeat split; try reflexivity.
      right. exists clean. now split.
    + rewrite (processPage_failure env p Hred Hrun) in Hemit. discriminate.
Qed.

Lemma worker_preserves_metadata_witness :
  exists m q,
    marshals (fst (processPage (sample_env [] greeting_script 1) hello_world))
    = [(m, q)]
    /\ Title q = "Hello" /\ body q = "Hi [[World]]."
    /\ Revision_Sha1 (Revision q) = "c0ffee".
Proof.
  destruct (worker_preserves_metadata (sample_env [] greeting_script 1)
              hello_world _ eq_refl)
    as (m & q & Hm & _ & Hq & _ & _ & _ & Ht & _ & _ & _ & _ & _ & _ & _ & _
        & _ & _ & _ & _ & _ & Hs).
  exists m, q. split; [exact Hm|].
  injection Hm as _ Hq'. subst q.
  repeat split.
Defined.




(** ** Fatal conditions *)

Lemma write_then_error (env : Env) (data : string) (next : WriterPC)
    (c : Config) (f : File) :
  file c = Some f ->
  write_ok env (writes f) = false ->
  write_then env data next c = Some (Crashed c).
Proof.
  intros Hf Hw. unfold write_then, fwrite. now rewrite Hf, Hw.
Qed.

(** C6 (fatal conditions).  Each of these steps ends the run in a crash,
    after which no goroutine moves any more: the reader's [os.Open]
    failing; the writer's [os.Create] failing; any [f.Write] of the writer
    failing (head, newline, item, trailer); the serializer failing in a
    worker, on a redirect ([xml.Marshal]) and on a transformed page
    ([xml.MarshalIndent]) alike. *)
Theorem fatal_conditions_abort (env : Env) (c : Config) :
  (mainPC c = MOpen -> open_input env = None ->
   step env c StepMain = Some (Crashed c))
  /\ (writerPC c = Some WrCreate -> create_output env = false ->
      step env c StepWriter = Some (Crashed c))
  /\ (forall f,
        file c = Some f -> write_ok env (writes f) = false ->
        writerPC c = Some WrHead
        \/ (exists text, writerPC c = Some (WrNewline text))
        \/ (exists text, writerPC c = Some (WrText text))
        \/ writerPC c = Some WrTrailer ->
        step env c StepWriter = Some (Crashed c))
  /\ (forall i p,
        nth_error (workerPCs c) i = Some (WHave p) ->
        strings.HasPrefix (body p) "#REDIRECT" = true ->
        xml_marshal env Marshal p = None ->
        step env c (StepWorker i)
        = Some (Crashed (emit [log_processing p; EvMarshal Marshal p] c)))
  /\ (forall i p clean,
        nth_error (workerPCs c) i = Some (WHave p) ->
        strings.HasPrefix (body p) "#REDIRECT" = false ->
        parse_script env (escape (body p)) = Some clean ->
        xml_marshal env (MarshalIndent "  " "    ")
          (set_body (unescape clean) p) = None ->
        step env c (StepWorker i)
        = Some (Crashed
                  (emit [log_processing p; EvExec (escape (body p));
                         EvMarshal (MarshalIndent "  " "    ")
                           (set_body (unescape clean) p)] c)))
  /\ (forall c' a sched, run env (Crashed c') (a :: sched) = None).
Proof.
  repeat split.
  - intros Hpc Hopen. simpl. unfold stepMain. now rewrite Hpc, Hopen.
  - intros Hpc Hcreate. simpl. unfold stepWriter. now rewrite Hpc, Hcreate.
  - intros f Hf Hw [Hpc | [[text Hpc] | [[text Hpc] | Hpc]]];
      simpl; unfold stepWriter; rewrite Hpc;
      now rewrite (write_then_error env _ _ c f Hf Hw).
  - intros i p Hi Hred Hm. simpl. unfold stepWorker.
    rewrite Hi, (processPage_redirect env p Hred).
    unfold serialized, marshal_or_panic. simpl. now rewrite Hm.
  - intros i p clean Hi Hred Hrun Hm. simpl. unfold stepWorker.
    rewrite Hi, (processPage_success env p clean Hred Hrun).
    unfold serialized, marshal_or_panic. simpl. now rewrite Hm.
Qed.

Lemma fatal_conditions_abort_witness :
  step failing_env (midway cat_redirect) StepMain
  = Some (Crashed (midway cat_redirect))
  /\ step failing_env (midway cat_redirect) StepWriter
     = Some (Crashed (midway cat_redirect))
  /\ step failing_env (writing (WrText "x") cat_redirect) StepWriter
     = Some (Crashed (writing (WrText "x") cat_redirect))
  /\ step failing_env (midway cat_redirect) (StepWorker 0)
     = Some (Crashed (emit [log_processing cat_redirect;
                            EvMarshal Marshal cat_redirect]
                        (midway cat_redirect)))
  /\ step failing_env (midway hello_world) (StepWorker 0)
     = Some (Crashed
               (emit [log_processing hello_world;
                      EvExec (escape (body hello_world));
                      EvMarshal (MarshalIndent "  " "    ")
                        (set_body (unescape (escape (body hello_world)))
                           hello_world)]
                  (midway hello_world)))
  /\ run failing_env (Crashed (midway cat_redirect)) [StepMain] = None.
Proof.
  destruct (fatal_conditions_abort failing_env (midway cat_redirect))
    as (H1 & H2 & _ & H4 & _ & H6).
  destruct (fatal_conditions_abort failing_env
              (writing (WrText "x") cat_redirect)) as (_ & _ & H3 & _).
  destruct (fatal_conditions_abort failing_env (midway hello_world))
    as (_ & _ & _ & _ & H5 & _).
  split; [exact (H1 eq_refl eq_refl)|].
  split; [exact (H2 eq_refl eq_refl)|].
  split; [apply (H3 {| content := head; writes := 1 |} eq_refl eq_refl);
          right; right; left; exists "x"; reflexivity|].
  split; [exact (H4 0 cat_redirect eq_refl eq_refl eq_refl)|].
  split; [exact (H5 0 hello_world (escape (body hello_world))
                   eq_refl eq_refl eq_refl eq_refl)|].
  exact (H6 (midway cat_redirect) StepMain []).
Defined.

(** ** Serialization *)

(** The statement of C7 as it stands fails on a redirect: the page is
    emitted, and the one serializer call of the worker is [xml.Marshal],
    which does not indent. *)
Lemma redirect_not_indented :
  snd (processPage (sample_env [] copy_script 1) cat_redirect)
  = Emit "<page><title>Cat</title><text>#REDIRECT [[Cat]]</text></page>"
  /\ marshals (fst (processPage (sample_env [] copy_script 1) cat_redirect))
     = [(Marshal, cat_redirect)]
  /\ indents Marshal = false.
Proof. repeat split. Qed.

(** C7, amended.  A page that the worker emits and that is no redirect was
    serialized by [xml.MarshalIndent] with prefix of two and indent of
    four blanks, so with indentation; a redirect that the worker emits was
    serialized by [xml.Marshal], without indentation. *)
Theorem serialization_by_branch (env : Env) (p : Page) (output : string) :
  snd (processPage env p) = Emit output ->
  (strings.HasPrefix (body p) "#REDIRECT" = false ->
   exists clean,
     parse_script env (escape (body p)) = Some clean
     /\ marshals (fst (processPage env p))
        = [(MarshalIndent "  " "    ", set_body (unescape clean) p)]
     /\ indents (MarshalIndent "  " "    ") = true
     /\ xml_marshal env (MarshalIndent "  " "    ")
          (set_body (unescape clean) p) = Some output)
  /\ (strings.HasPrefix (body p) "#REDIRECT" = true ->
      marshals (fst (processPage env p)) = [(Marshal, p)]
      /\ indents Marshal = false
      /\ xml_marshal env Marshal p = Some output).
Proof.
  intros Hemit. split; intros Hred.
  - destruct (parse_script env (escape (body p))) as [clean|] eqn:Hrun.
    + rewrite (processPage_success env p clean Hred Hrun) in *.
      exists clean.
      unfold serialized, marshal_or_panic in Hemit. simpl in Hemit.
      destruct (xml_marshal env _ _); [|discriminate].
      injection Hemit as ->. repeat split.
    + rewrite (processPage_failure env p Hred Hrun) in Hemit. discriminate.
  - rewrite (processPage_redirect env p Hred) in *.
    unfold serialized, marshal_or_panic in Hemit. simpl in Hemit.
    destruct (xml_marshal env Marshal p); [|discriminate].
    injection Hemit as ->. repeat split.
Qed.

Lemma serialization_by_branch_witness :
  exists clean,
    parse_script (sample_env [] greeting_script 1) (escape (body hello_world))
    = Some clean
    /\ marshals
         (fst (processPage (sample_env [] greeting_script 1) hello_world))
       = [(MarshalIndent "  " "    ", set_body (unescape clean) hello_world)].
Proof.
  destruct (proj1 (serialization_by_branch (sample_env [] greeting_script 1)
                     hello_world _ eq_refl) eq_refl)
    as (clean & H1 & H2 & _).
  exists clean. split; [exact H1 | exact H2].
Defined.

(** ** The writer *)

Lemma fwrite_ok (env : Env) (f : File) (data : string) :
  (forall k, write_ok env k = true) ->
  fwrite env f data
  = Some {| content := content f ++ data; writes := S (writes f) |}.
Proof. intros Hw. unfold fwrite. now rewrite Hw. Qed.

Lemma writeItems_all (env : Env) (items : list string) (f : File) :
  (forall k, write_ok env k = true) ->
  writeItems env f items
  = inl {| content := content f ++ written items;
           writes := writes f + 2 * List.length items |}.
Proof.
  intros Hw. revert f.
  induction items as [|text rest IH]; intros f; simpl.
  - rewrite append_nil_r, Nat.add_0_r. now destruct f.
  - rewrite !(fwrite_ok env _ _ Hw), IH. cbn [content writes].
    f_equal. f_equal.
    + now rewrite !append_assoc.
    + lia.
Qed.

(** C8 (writer).  When the file can be created and written, the writer
    leaves the head, then for every item in arrival order a newline followed
    by the item with the token [&#xA;] taken out, then the trailer.  Every
    item is a sequence of token-free pieces with the token between them,
    and what is written of it is the pieces alone: every occurrence of the
    token in the item is removed. *)
Theorem writer_strips_and_separates (env : Env) (items : list string) :
  create_output env = true ->
  (forall k, write_ok env k = true) ->
  startWriter env items
  = (Some {| content := head ++ written items ++ "</page>";
             writes := 2 + 2 * List.length items |}, Returned)
  /\ (forall text rest,
        written (text :: rest) = nl ++ strip text ++ written rest)
  /\ (forall text, In text items ->
        exists parts,
          parts <> []
          /\ text = String.concat "&#xA;" parts
          /\ Forall (fun part => strings.Contains part "&#xA;" = false) parts
          /\ strip text = concat_all parts).
Proof.
  intros Hc Hw. split; [|split].
  - unfold startWriter. rewrite Hc, (fwrite_ok env _ _ Hw).
    rewrite (writeItems_all env items _ Hw), (fwrite_ok env _ _ Hw).
    generalize head; intros h. cbn [content writes append].
    now rewrite append_assoc.
  - reflexivity.
  - intros text _. apply strip_pieces.
Qed.

Lemma writer_strips_and_separates_witness :
  fst (startWriter (sample_env [] copy_script 1) ["a&#xA;b"; "c"])
  = Some {| content := head ++ written ["a&#xA;b"; "c"] ++ "</page>";
            writes := 6 |}
  /\ written ["a&#xA;b"; "c"] = nl ++ "ab" ++ nl ++ "c".
Proof.
  destruct (writer_strips_and_separates (sample_env [] copy_script 1)
              ["a&#xA;b"; "c"] eq_refl (fun _ => eq_refl)) as (H1 & _).
  split; [rewrite H1; reflexivity | reflexivity].
Defined.

(** ** The goroutine protocol *)

(** C9 at a failing run.  With one worker and an input without pages, the
    schedule that lets the reader finish before the worker goroutine takes
    its first step reaches [close(w.OutText)] with the counter of the
    wait group still at zero: the result queue is closed while the worker
    has not exited, and has not even run [w.wg.Add(1)]. *)
Theorem result_queue_closed_before_worker_exit :
  exists c,
    run (sample_env [] copy_script 1) (Running initial) late_worker_schedule
    = Some (Running c)
    /\ mainPC c = MReturned
    /\ outTextClosed c = true
    /\ wg c = 0%Z
    /\ workerPCs c = [WAdd].
Proof. eexists. split; [vm_compute; reflexivity | repeat split]. Qed.

(** ** Sentinels in the input *)

Lemma sentinel_free_false (b : string) :
  sentinel_free b = false ->
  exists d x y, b = x ++ sentinel d ++ y.
Proof.
  unfold sentinel_free. intros H.
  apply andb_false_iff in H as [H | H]; apply negb_false_iff in H.
  - destruct (Contains_first _ _ _ H) as (x & y & Hb & _).
    exists Open, x, y. exact Hb.
  - destruct (Contains_first _ _ _ H) as (x & y & Hb & _).
    exists Close, x, y. exact Hb.
Qed.

(** C10 (sentinels in the input).  Unescaping after escaping gives back the
    body exactly when the body holds no sentinel.  A sentinel that the body
    holds comes out as the link symbol it stands for, so the final body
    differs from the original one, also when the parse script copies its
    input: the worker then serializes the page with that body. *)
Theorem round_trip_only_without_sentinels (b : string) :
  (unescape (escape b) = b <-> sentinel_free b = true)
  /\ (forall d x y,
        b = x ++ sentinel d ++ y ->
        unescape (escape b)
        = unescape (escape x) ++ link d ++ unescape (escape y)
        /\ unescape (escape b) <> b)
  /\ (forall env p,
        body p = b ->
        strings.HasPrefix b "#REDIRECT" = false ->
        parse_script env (escape b) = Some (escape b) ->
        marshals (fst (processPage env p))
        = [(MarshalIndent "  " "    ", set_body (unescape (escape b)) p)]).
Proof.
  assert (Hne : forall d x y, b = x ++ sentinel d ++ y ->
                              unescape (escape b) <> b).
  { intros d x y -> Heq.
    pose proof (unescape_shrinks d x y) as Hlt.
    rewrite <- unescape_escape, Heq in Hlt. lia. }
  split; [split|split].
  - intros Heq. destruct (sentinel_free b) eqn:E; [reflexivity|].
    destruct (sentinel_free_false b E) as (d & x & y & Hb).
    exfalso. exact (Hne d x y Hb Heq).
  - intros Hfree. now rewrite unescape_escape, unescape_sentinel_free.
  - intros d x y Hb. split; [|exact (Hne d x y Hb)].
    subst b. now rewrite escape_sentinel, unescape_sentinel.
  - intros env p Hb Hred Hrun. subst b.
    now rewrite (processPage_success env p _ Hred Hrun).
Qed.

Lemma round_trip_only_without_sentinels_witness :
  unescape (escape (body literal_sentinel)) = "use [[ here"
  /\ unescape (escape (body literal_sentinel)) <> body literal_sentinel
  /\ marshals (fst (processPage (sample_env [] copy_script 1) literal_sentinel))
     = [(MarshalIndent "  " "    ", set_body "use [[ here" literal_sentinel)].
Proof.
  destruct (round_trip_only_without_sentinels (body literal_sentinel))
    as (_ & H2 & H3).
  destruct (H2 Open "use " " here" eq_refl) as [H4 H5].
  split; [exact H4 | split; [exact H5|]].
  exact (H3 (sample_env [] copy_script 1) literal_sentinel
           eq_refl eq_refl eq_refl).
Defined.

(** ** Duplicates *)

(** Nothing is ever found in the empty [seen]. *)
Lemma find_nil (val : string) : find seen0 val = false.
Proof. reflexivity. Qed.

(** With [seen] as the package leaves it, the reader forwards every page of
    the input. *)
Lemma readTokens_forwards_all (ts : list Token) :
  readTokens seen0 ts
  = ([], flat_map (fun t => match t with
                            | PageElement p => [p]
                            | OtherToken => []
                            end) ts).
Proof.
  induction ts as [|[p|] ts IH]; simpl; [reflexivity | | exact IH].
  now rewrite IH.
Qed.

(** C1 at a failing input (scenario A).  Two pages titled [Dog]: the reader
    sends both to the workers, and the run with one worker ends with both
    in the output file, the second one as well as the first. *)
Theorem duplicate_titles_both_emitted :
  readTokens seen0 [PageElement dog_animal; PageElement dog_other]
  = ([], [dog_animal; dog_other])
  /\ exists c f,
       run (sample_env [PageElement dog_animal; PageElement dog_other]
              copy_script 1)
           (Running initial) two_page_schedule
       = Some (Running c)
       /\ mainPC c = MReturned
       /\ writerPC c = Some WrDone
       /\ workerPCs c = [WDone]
       /\ seen c = []
       /\ file c = Some f
       /\ content f
          = head
            ++ nl ++ "  <page>" ++ nl
            ++ "      <title>Dog</title>" ++ nl
            ++ "      <text>Animal.</text>" ++ nl
            ++ "  </page>"
            ++ nl ++ "  <page>" ++ nl
            ++ "      <title>Dog</title>" ++ nl
            ++ "      <text>Other.</text>" ++ nl
            ++ "  </page>"
            ++ "</page>".
Proof.
  split; [reflexivity|].
  eexists. eexists. split; [vm_compute; reflexivity|].
  split; [reflexivity|]. split; [reflexivity|]. split; [reflexivity|].
  split; [reflexivity|]. split; [reflexivity|].
  vm_compute. reflexivity.
Qed.

(** ** No send on a closed queue *)

Lemma count_active_app (ws ws' : list WorkerPC) :
  count_active (ws ++ ws')%list = count_active ws + count_active ws'.
Proof. induction ws as [|pc ws IH]; simpl; [reflexivity | rewrite IH; lia]. Qed.

Lemma count_active_update (ws : list WorkerPC) (i : nat) (pc pc' : WorkerPC) :
  nth_error ws i = Some pc ->
  count_active (update i pc' ws) + (if active pc then 1 else 0)
  = count_active ws + (if active pc' then 1 else 0).
Proof.
  revert i; induction ws as [|w ws IH]; intros i H.
  - destruct i; discriminate H.
  - destruct i as [|i]; simpl in *.
    + injection H as ->. lia.
    + specialize (IH i H). lia.
Qed.

Lemma forallb_update (P : WorkerPC -> bool) (ws : list WorkerPC) (i : nat)
    (pc' : WorkerPC) :
  forallb P ws = true -> P pc' = true -> forallb P (update i pc' ws) = true.
Proof.
  revert i; induction ws as [|w ws IH]; intros i H Hp; [reflexivity|].
  simpl in H. apply andb_true_iff in H as [Hw Hws].
  destruct i as [|i]; simpl.
  - now rewrite Hp, Hws.
  - now rewrite Hw, IH.
Qed.

Lemma forallb_nth_error (P : WorkerPC -> bool) (ws : list WorkerPC) (i : nat)
    (pc : WorkerPC) :
  forallb P ws = true -> nth_error ws i = Some pc -> P pc = true.
Proof.
  revert i; induction ws as [|w ws IH]; intros i H Hi.
  - destruct i; discriminate Hi.
  - simpl in H. apply andb_true_iff in H as [Hw Hws].
    destruct i as [|i]; simpl in Hi.
    + now injection Hi as <-.
    + exact (IH i Hws Hi).
Qed.

(** When no worker is active, none holds work. *)
Lemma idle_workers (ws : list WorkerPC) :
  count_active ws = 0 ->
  forallb (fun pc => negb (holds_work pc)) ws = true.
Proof.
  induction ws as [|pc ws IH]; intros H; [reflexivity|].
  simpl in *. destruct pc; simpl in *; try lia; apply IH; lia.
Qed.

Lemma Inv_initial : Inv initial.
Proof. repeat split; intros H; discriminate H. Qed.

(** A worker's move from [pc] to [pc'], with the counter going from [n] to
    [n'] as the activity of the two program points tells. *)
Lemma invariant_worker (n n' : Z) (ws : list WorkerPC) (m : MainPC)
    (closed : bool) (i : nat) (pc pc' : WorkerPC) :
  invariant n ws m closed ->
  nth_error ws i = Some pc ->
  (n' + (if active pc then 1 else 0) = n + (if active pc' then 1 else 0))%Z ->
  (past_wait m = true -> holds_work pc' = true -> holds_work pc = true) ->
  invariant n' (update i pc' ws) m closed.
Proof.
  intros (H1 & H2 & H3) Hi Hn Hw.
  pose proof (count_active_update ws i pc pc' Hi) as Hc.
  split; [|split].
  - destruct (active pc), (active pc'); lia.
  - intros Hm. specialize (H2 Hm). apply forallb_update; [exact H2|].
    pose proof (forallb_nth_error _ ws i pc H2 Hi) as Hpc. simpl in Hpc.
    destruct (holds_work pc') eqn:E; [|reflexivity].
    rewrite (Hw Hm eq_refl) in Hpc. discriminate.
  - exact H3.
Qed.

(** Every step of the program keeps the invariant. *)
Lemma step_keeps_Inv (env : Env) (c c' : Config) (a : Action) :
  Inv c -> step env c a = Some (Running c') -> Inv c'.
Proof.
  unfold Inv. intros HI Hstep.
  destruct a as [ | i | | i | i]; simpl in Hstep.
  - (* the caller of Start *)
    unfold stepMain in Hstep. destruct HI as (H1 & H2 & H3).
    destruct (mainPC c) as [j | | | ts | p ts | | | | ] eqn:Hm.
    + destruct (j <=? workerCount env)%Z; injection Hstep as <-; simpl;
        (split; [|split]; [ | intros H; discriminate H
                         | intros H; specialize (H3 H); discriminate H3]).
      * rewrite count_active_app. simpl. rewrite H1. f_equal. lia.
      * exact H1.
    + injection Hstep as <-; simpl.
      split; [|split]; [exact H1 | intros H; discriminate H
                     | intros H; specialize (H3 H); discriminate H3].
    + destruct (open_input env); [|discriminate].
      injection Hstep as <-; simpl.
      split; [|split]; [exact H1 | intros H; discriminate H
                     | intros H; specialize (H3 H); discriminate H3].
    + destruct ts as [|[p|] ts];
        [ | destruct (find (seen c) (Title p)) | ];
        injection Hstep as <-; simpl;
        (split; [|split]; [exact H1 | intros H; discriminate H
                        | intros H; specialize (H3 H); discriminate H3]).
    + destruct (inPageClosed c); discriminate.
    + injection Hstep as <-; simpl.
      split; [|split]; [exact H1 | intros H; discriminate H
                     | intros H; specialize (H3 H); discriminate H3].
    + destruct (wg c =? 0)%Z eqn:Hz; [|discriminate].
      injection Hstep as <-; simpl.
      apply Z.eqb_eq in Hz.
      split; [|split];
        [exact H1 | | intros H; specialize (H3 H); discriminate H3].
      intros _. apply idle_workers. lia.
    + injection Hstep as <-; simpl.
      split; [|split]; [exact H1 | intros _; now apply H2 | reflexivity].
    + discriminate.
  - (* a worker *)
    unfold stepWorker in Hstep.
    destruct (nth_error (workerPCs c) i) as [[ | | p | output | | ]|] eqn:Hi;
      try discriminate.
    + injection Hstep as <-; simpl.
      apply (invariant_worker (wg c) _ _ _ _ i WAdd WRecv HI Hi);
        [simpl; lia | intros _ H; discriminate H].
    + destruct (inPageClosed c); [|discriminate].
      injection Hstep as <-; simpl.
      apply (invariant_worker (wg c) _ _ _ _ i WRecv WExiting HI Hi);
        [simpl; lia | intros _ H; discriminate H].
    + destruct (processPage env p) as [ev [output | |]];
        try discriminate; injection Hstep as <-; simpl.
      * apply (invariant_worker (wg c) _ _ _ _ i (WHave p) (WSendText output)
                 HI Hi);
          [simpl; lia | reflexivity].
      * apply (invariant_worker (wg c) _ _ _ _ i (WHave p) WRecv HI Hi);
          [simpl; lia | intros _ H; discriminate H].
    + destruct (outTextClosed c); discriminate.
    + destruct (wg c - 1 <? 0)%Z; [discriminate|].
      injection Hstep as <-; simpl.
      apply (invariant_worker (wg c) _ _ _ _ i WExiting WDone HI Hi);
        [simpl; lia | intros _ H; discriminate H].
  - (* the writer *)
    unfold stepWriter, write_then in Hstep.
    destruct (writerPC c) as [[ | | | text | text | | ]|]; try discriminate.
    + destruct (create_output env); [|discriminate].
      injection Hstep as <-. exact HI.
    + destruct (file c) as [f|]; [|discriminate].
      destruct (fwrite env f head); [|discriminate].
      injection Hstep as <-. exact HI.
    + destruct (outTextClosed c) eqn:Hc; [|discriminate].
      injection Hstep as <-. simpl. rewrite Hc. exact HI.
    + destruct (file c) as [f|]; [|discriminate].
      destruct (fwrite env f nl); [|discriminate].
      injection Hstep as <-. exact HI.
    + destruct (file c) as [f|]; [|discriminate].
      destruct (fwrite env f text); [|discriminate].
      injection Hstep as <-. exact HI.
    + destruct (file c) as [f|]; [|discriminate].
      destruct (fwrite env f "</page>"); [|discriminate].
      injection Hstep as <-. exact HI.
  - (* the reader hands a page to worker i *)
    unfold handoff in Hstep.
    destruct (mainPC c) as [ | | | | p ts | | | | ] eqn:Hm; try discriminate.
    destruct (nth_error (workerPCs c) i) as [[ | | | | | ]|] eqn:Hi;
      try discriminate.
    destruct (inPageClosed c); [discriminate|].
    injection Hstep as <-; simpl.
    assert (HI' : invariant (wg c) (workerPCs c) (MToken ts) (outTextClosed c)).
    { destruct HI as (H1 & H2 & H3).
      split; [|split]; [exact H1 | intros H; discriminate H
                     | intros H; specialize (H3 H); discriminate H3]. }
    apply (invariant_worker (wg c) _ _ _ _ i WRecv (WHave p) HI' Hi);
      [simpl; lia | intros H; discriminate H].
  - (* worker i hands a result to the writer *)
    unfold deliver in Hstep.
    destruct (nth_error (workerPCs c) i) as [[ | | | output | | ]|] eqn:Hi;
      try discriminate.
    destruct (writerPC c) as [[ | | | | | | ]|]; try discriminate.
    destruct (outTextClosed c) eqn:Hc; [discriminate|].
    injection Hstep as <-; simpl. rewrite Hc.
    apply (invariant_worker (wg c) _ _ _ _ i (WSendText output) WRecv HI Hi);
      [simpl; lia | intros _ H; discriminate H].
Qed.

Lemma run_keeps_Inv (env : Env) (sched : list Action) (c0 c : Config) :
  Inv c0 -> run env (Running c0) sched = Some (Running c) -> Inv c.
Proof.
  revert c0; induction sched as [|a rest IH]; intros c0 H0 Hrun; simpl in Hrun.
  - now injection Hrun as <-.
  - destruct (step env c0 a) as [[c1 | c1]|] eqn:Hstep; [ | | discriminate].
    + exact (IH c1 (step_keeps_Inv env c0 c1 a H0 Hstep) Hrun).
    + destruct rest; discriminate Hrun.
Qed.

(** The part of C9 that the program keeps.  In every configuration that a
    schedule reaches from the start of [Start], a worker that is about to
    send on the result queue finds it open: once the queue is closed no
    worker holds a page or an unsent result, so the send of a worker never
    panics, whatever the schedule. *)
Theorem no_send_on_closed_queue (env : Env) (sched : list Action) (c : Config)
    (i : nat) (output : string) :
  run env (Running initial) sched = Some (Running c) ->
  nth_error (workerPCs c) i = Some (WSendText output) ->
  outTextClosed c = false /\ step env c (StepWorker i) = None.
Proof.
  intros Hrun Hi.
  destruct (run_keeps_Inv env sched initial c Inv_initial Hrun)
    as (_ & H2 & H3).
  assert (Hc : outTextClosed c = false).
  { destruct (outTextClosed c); [|reflexivity].
    rewrite (H3 eq_refl) in H2.
    pose proof (forallb_nth_error _ _ i _ (H2 eq_refl) Hi) as H.
    discriminate H. }
  split; [exact Hc|].
  simpl. unfold stepWorker. now rewrite Hi, Hc.
Qed.

(** A text can hold the token again once its occurrences are taken out. *)
Example strip_rejoins : strip "&#x&#xA;A;" = "&#xA;".
Proof. reflexivity. Qed.

Lemma no_send_on_closed_queue_witness :
  exists c output,
    run (sample_env [PageElement dog_animal] copy_script 1) (Running initial)
      first_send_schedule = Some (Running c)
    /\ nth_error (workerPCs c) 0 = Some (WSendText output)
    /\ outTextClosed c = false.
Proof.
  set (env := sample_env [PageElement dog_animal] copy_script 1).
  set (c := config_after env first_send_schedule).
  assert (Hrun : run env (Running initial) first_send_schedule
                 = Some (Running c)) by (vm_compute; reflexivity).
  destruct (nth_error (workerPCs c) 0) as [[ | | | output | | ]|] eqn:Hi;
    try (vm_compute in Hi; discriminate Hi).
  exists c, output.
  split; [exact Hrun | split; [exact Hi|]].
  exact (proj1 (no_send_on_closed_queue env _ c 0 output Hrun Hi)).
Defined.

(** ** The stages inside the running program *)

Lemma nth_error_update (ws : list WorkerPC) (i : nat) (pc pc' : WorkerPC) :
  nth_error ws i = Some pc -> nth_error (update i pc' ws) i = Some pc'.
Proof.
  revert i; induction ws as [|w ws IH]; intros i H.
  - destruct i; discriminate H.
  - destruct i as [|i]; simpl in *; [reflexivity | exact (IH i H)].
Qed.

(** One item on its way through the program: the rendezvous on the result
    queue and the writer's two writes append a newline and the stripped
    item, and leave worker and writer at their receives. *)
Lemma writer_item_steps (env : Env) (c : Config) (i : nat) (output : string)
    (f : File) :
  nth_error (workerPCs c) i = Some (WSendText output) ->
  writerPC c = Some WrRecv ->
  outTextClosed c = false ->
  file c = Some f ->
  (forall k, write_ok env k = true) ->
  exists c',
    run env (Running c) [Deliver i; StepWriter; StepWriter] = Some (Running c')
    /\ file c' = Some {| content := content f ++ nl ++ strip output;
                         writes := S (S (writes f)) |}
    /\ writerPC c' = Some WrRecv
    /\ nth_error (workerPCs c') i = Some WRecv
    /\ events c' = events c.
Proof.
  intros Hi Hw Hc Hf Hok.
  eexists. split.
  - simpl. unfold deliver. rewrite Hi, Hw, Hc.
    unfold stepWriter, write_then. simpl. rewrite Hf.
    rewrite (fwrite_ok env _ _ Hok). simpl.
    rewrite (fwrite_ok env _ _ Hok). simpl. reflexivity.
  - simpl. rewrite append_assoc.
    repeat split. exact (nth_error_update _ _ _ _ Hi).
Qed.

(** The worker's step on a page is the loop body of [startWorker]. *)
Lemma worker_step_is_processPage (env : Env) (c : Config) (i : nat) (p : Page) :
  nth_error (workerPCs c) i = Some (WHave p) ->
  step env c (StepWorker i)
  = Some (match snd (processPage env p) with
          | Emit output =>
              Running (set_worker i (WSendText output)
                         (emit (fst (processPage env p)) c))
          | Skip =>
              Running (set_worker i WRecv (emit (fst (processPage env p)) c))
          | Panic => Crashed (emit (fst (processPage env p)) c)
          end).
Proof.
  intros Hi. simpl. unfold stepWorker. rewrite Hi.
  destruct (processPage env p) as [ev [output | |]]; reflexivity.
Qed.

(** * Further properties of the package *)

(** ** [find] *)

(** X1.  [find] answers whether the value is an element of the slice. *)
Theorem find_iff_In (slice : list string) (val : string) :
  find slice val = true <-> In val slice.
Proof.
  induction slice as [|p rest IH]; simpl.
  - split; [discriminate | contradiction].
  - destruct (String.eqb p val) eqn:E.
    + apply String.eqb_eq in E. split; [now left | reflexivity].
    + apply String.eqb_neq in E. rewrite IH.
      split; [now right | intros [H | H]; [contradiction | exact H]].
Qed.

(** ** The reader *)

Lemma readTokens_filter (titles : list string) (ts : list Token) :
  readTokens titles ts
  = (map log_duplicate (filter (known titles) (pages_of ts)),
     filter (fresh titles) (pages_of ts)).
Proof.
  induction ts as [|[p|] ts IH]; simpl; [reflexivity | | exact IH].
  rewrite IH. unfold known, fresh.
  destruct (find titles (Title p)); reflexivity.
Qed.

(** X2.  When the input opens, [startReader] sends exactly the pages whose
    title is not in [seen], in the order of the input, logs one duplicate
    line for each of the others, then logs that it is done and returns;
    tokens that are no page elements leave no trace.  It reads [seen] and
    never adds to it. *)
Theorem startReader_sends_fresh_pages (env : Env) (titles : list string)
    (ts : list Token) :
  open_input env = Some ts ->
  startReader env titles
  = ((map log_duplicate (filter (known titles) (pages_of ts))
      ++ [EvLog "Reader done"])%list,
     filter (fresh titles) (pages_of ts),
     Returned).
Proof.
  intros H. unfold startReader. now rewrite H, readTokens_filter.
Qed.

Lemma startReader_sends_fresh_pages_witness :
  startReader (sample_env [PageElement dog_animal; OtherToken;
                           PageElement cat_redirect] copy_script 1) ["Dog"]
  = ([log_duplicate dog_animal; EvLog "Reader done"], [cat_redirect],
     Returned).
Proof.
  exact (startReader_sends_fresh_pages
           (sample_env [PageElement dog_animal; OtherToken;
                        PageElement cat_redirect] copy_script 1)
           ["Dog"] _ eq_refl).
Defined.

(** ** The worker's loop *)

Lemma execs_app (a b : list Event) :
  execs (a ++ b)%list = (execs a ++ execs b)%list.
Proof.
  induction a as [|[line | stdin | m p] a IH]; simpl;
    [reflexivity | exact IH | now rewrite IH | exact IH].
Qed.

Lemma marshals_app (a b : list Event) :
  marshals (a ++ b)%list = (marshals a ++ marshals b)%list.
Proof.
  induction a as [|[line | stdin | m p] a IH]; simpl;
    [reflexivity | exact IH | exact IH | now rewrite IH].
Qed.

(** X3.  A worker's run over [ps1 ++ ps2] is its run over [ps1] followed,
    unless that one panicked, by its run over [ps2]: items are sent in the
    order of the pages, and after a panic nothing more is sent. *)
Theorem startWorker_app (env : Env) (ps1 ps2 : list Page) :
  sent (startWorker env (ps1 ++ ps2)%list)
  = (sent (startWorker env ps1)
     ++ match ended (startWorker env ps1) with
        | Returned => sent (startWorker env ps2)
        | Panicked => []
        end)%list
  /\ ended (startWorker env (ps1 ++ ps2)%list)
     = match ended (startWorker env ps1) with
       | Returned => ended (startWorker env ps2)
       | Panicked => Panicked
       end.
Proof.
  unfold sent, ended.
  induction ps1 as [|p ps1 IH]; simpl.
  - split; reflexivity.
  - destruct (processPage env p) as [ev [output | |]].
    + destruct (startWorker env (ps1 ++ ps2)%list) as [[ev1 out1] e1].
      destruct (startWorker env ps1) as [[ev2 out2] e2].
      simpl in *. destruct IH as [-> ->]. split; reflexivity.
    + destruct (startWorker env (ps1 ++ ps2)%list) as [[ev1 out1] e1].
      destruct (startWorker env ps1) as [[ev2 out2] e2].
      simpl in *. destruct IH as [-> ->]. split; reflexivity.
    + split; reflexivity.
Qed.

Lemma processPage_counts (env : Env) (p : Page) :
  List.length (execs (fst (processPage env p))) <= 1
  /\ List.length (marshals (fst (processPage env p))) <= 1
  /\ (forall output, snd (processPage env p) = Emit output ->
      List.length (marshals (fst (processPage env p))) = 1).
Proof.
  destruct (strings.HasPrefix (body p) "#REDIRECT") eqn:Hred.
  - rewrite (processPage_redirect env p Hred). simpl. repeat split; lia.
  - destruct (parse_script env (escape (body p))) as [clean|] eqn:Hrun.
    + rewrite (processPage_success env p clean Hred Hrun). simpl.
      repeat split; lia.
    + rewrite (processPage_failure env p Hred Hrun). simpl.
      repeat split; try lia. intros output H. discriminate H.
Qed.

(** X4.  A worker sends at most one item per page it receives, never
    splits a page over several items, runs the parse script at most once
    per page, and has called a serializer once for every item it sends. *)
Theorem startWorker_one_item_per_page (env : Env) (pages : list Page) :
  List.length (sent (startWorker env pages))
  <= List.length (marshals (fst (fst (startWorker env pages))))
  /\ List.length (marshals (fst (fst (startWorker env pages))))
     <= List.length pages
  /\ List.length (execs (fst (fst (startWorker env pages))))
     <= List.length pages.
Proof.
  unfold sent.
  induction pages as [|p pages IH]; simpl.
  - repeat split; lia.
  - pose proof (processPage_counts env p) as (He & Hm & Hone).
    destruct (processPage env p) as [ev [output | |]]; simpl in *.
    + specialize (Hone output eq_refl).
      destruct (startWorker env pages) as [[ev' out] e]. simpl in *.
      rewrite marshals_app, execs_app, !length_app. lia.
    + destruct (startWorker env pages) as [[ev' out] e]. simpl in *.
      rewrite marshals_app, execs_app, !length_app. lia.
    + lia.
Qed.

(** ** What goes to the parse script and what comes back *)

Lemma HasPrefix_unescape (t s : string) :
  occurs "[" t = false -> occurs "]" t = false -> occurs "<" t = false ->
  strings.HasPrefix (unescape s) t = strings.HasPrefix s t.
Proof.
  intros H1 H2 H3. rewrite unescape_scan.
  unfold SPEC_START, SPEC_END.
  rewrite HasPrefix_scanAll by assumption.
  now rewrite HasPrefix_scanAll by assumption.
Qed.

Lemma Contains_sentinel_cons (d : Delim) (c : ascii) (s : string) :
  strings.HasPrefix (String c s) (sentinel d) = false ->
  strings.Contains (String c s) (sentinel d) = strings.Contains s (sentinel d).
Proof. intros H. now rewrite Contains_cons, H. Qed.

(** No sentinel is left in an unescaped text. *)
Lemma unescape_no_sentinels (d : Delim) (b : string) :
  strings.Contains (unescape b) (sentinel d) = false.
Proof.
  induction b as [|t IH|t IH|t IH|t IH|c t Hp IH] using token_ind.
  - now destruct d.
  - rewrite unescape_open. set (u := unescape t) in *.
    destruct d; exact IH.
  - rewrite unescape_close. set (u := unescape t) in *.
    destruct d; exact IH.
  - rewrite unescape_start. set (u := unescape t) in *.
    destruct d; exact IH.
  - rewrite unescape_end. set (u := unescape t) in *.
    destruct d; exact IH.
  - destruct Hp as (_ & _ & H3 & H4).
    rewrite (unescape_plain c t H3 H4), Contains_sentinel_cons; [exact IH|].
    destruct d; simpl sentinel; unfold SPEC_START, SPEC_END in *;
      rewrite HasPrefix_cons, HasPrefix_unescape by reflexivity;
      assumption.
Qed.

Lemma unescape_is_sentinel_free (b : string) :
  sentinel_free (unescape b) = true.
Proof.
  unfold sentinel_free.
  pose proof (unescape_no_sentinels Open b) as H1.
  pose proof (unescape_no_sentinels Close b) as H2.
  simpl sentinel in H1, H2. now rewrite H1, H2.
Qed.

(** X5.  Whatever the page and whatever the script answers: the text the
    parse script gets on its standard input is the escaped body and holds
    no link symbol, and the body of a page that is serialized on the
    transform branch holds no sentinel. *)
Theorem script_sees_no_links_output_no_sentinels (env : Env) (p : Page) :
  (forall stdin, In stdin (execs (fst (processPage env p))) ->
     stdin = escape (body p)
     /\ strings.Contains stdin "[[" = false
     /\ strings.Contains stdin "]]" = false)
  /\ (forall m q, In (m, q) (marshals (fst (processPage env p))) ->
        m <> Marshal -> sentinel_free (body q) = true).
Proof.
  destruct (strings.HasPrefix (body p) "#REDIRECT") eqn:Hred.
  - rewrite (processPage_redirect env p Hred). simpl. split.
    + intros stdin [].
    + intros m q [H | []] Hm. injection H as <- _. now contradiction Hm.
  - destruct (parse_script env (escape (body p))) as [clean|] eqn:Hrun.
    + rewrite (processPage_success env p clean Hred Hrun). simpl. split.
      * intros stdin [<- | []].
        split; [reflexivity | apply escape_no_links].
      * intros m q [H | []] _. injection H as _ <-.
        rewrite body_set_body. apply unescape_is_sentinel_free.
    + rewrite (processPage_failure env p Hred Hrun). simpl. split.
      * intros stdin [<- | []].
        split; [reflexivity | apply escape_no_links].
      * intros m q [].
Qed.

Lemma script_sees_no_links_output_no_sentinels_witness :
  strings.Contains (escape (body hello_world)) "[[" = false
  /\ sentinel_free (body (set_body (unescape "Hi <SPEC_START>World<SPEC_END>.")
                            hello_world)) = true.
Proof.
  destruct (script_sees_no_links_output_no_sentinels
              (sample_env [] greeting_script 1) hello_world) as [H1 H2].
  split.
  - exact (proj1 (proj2 (H1 _ (or_introl eq_refl)))).
  - refine (H2 (MarshalIndent "  " "    ") _ (or_introl eq_refl) _).
    discriminate.
Defined.

(** X6.  The worker leaves the parse script out exactly for the bodies
    that are the nine bytes [#REDIRECT] followed by anything: the test is
    on the first bytes of the body, with no blank skipped and no letter
    folded. *)
Theorem script_skipped_iff_redirect_prefix (env : Env) (p : Page) :
  execs (fst (processPage env p)) = []
  <-> exists rest, body p = "#REDIRECT" ++ rest.
Proof.
  split.
  - intros H.
    destruct (strings.HasPrefix (body p) "#REDIRECT") eqn:Hred.
    + exact (HasPrefix_split _ _ Hred).
    + destruct (parse_script env (escape (body p))) as [clean|] eqn:Hrun.
      * rewrite (processPage_success env p clean Hred Hrun) in H.
        discriminate H.
      * rewrite (processPage_failure env p Hred Hrun) in H.
        discriminate H.
  - intros [rest Hb].
    assert (Hred : strings.HasPrefix (body p) "#REDIRECT" = true)
      by (rewrite Hb; apply HasPrefix_append).
    now rewrite (processPage_redirect env p Hred).
Qed.

(** X7.  With a parse script that answers with its input, the page that
    the worker serializes has the body of the input with every sentinel
    that the body held replaced by its link symbol, and nothing else
    changed; it is the page itself when the body holds no sentinel. *)
Theorem copying_script_net_effect (env : Env) (p : Page) :
  strings.HasPrefix (body p) "#REDIRECT" = false ->
  parse_script env (escape (body p)) = Some (escape (body p)) ->
  marshals (fst (processPage env p))
  = [(MarshalIndent "  " "    ", set_body (unescape (body p)) p)]
  /\ (sentinel_free (body p) = true ->
      marshals (fst (processPage env p)) = [(MarshalIndent "  " "    ", p)]).
Proof.
  intros Hred Hrun.
  rewrite (processPage_success env p _ Hred Hrun). simpl.
  rewrite unescape_escape. split; [reflexivity|].
  intros Hfree.
  now rewrite (unescape_sentinel_free _ Hfree), set_body_body.
Qed.

Lemma copying_script_net_effect_witness :
  marshals (fst (processPage (sample_env [] copy_script 1) dog_animal))
  = [(MarshalIndent "  " "    ", dog_animal)].
Proof.
  exact (proj2 (copying_script_net_effect (sample_env [] copy_script 1)
                  dog_animal eq_refl eq_refl) eq_refl).
Defined.

(** ** The writer under write errors *)





(** ** What every run of [Start] keeps *)


(** The handoff queue is closed exactly from the reader's [close] on. *)
Lemma step_keeps_reader_flag (env : Env) (c c' : Config) (a : Action) :
  inPageClosed c = reader_done (mainPC c) ->
  step env c a = Some (Running c') ->
  inPageClosed c' = reader_done (mainPC c').
Proof.
  intros HI Hstep.
  destruct a as [ | i | | i | i]; simpl in Hstep.
  - unfold stepMain in Hstep.
    destruct (mainPC c) as [j | | | ts | p ts | | | | ] eqn:Hm; simpl in HI.
    + destruct (j <=? workerCount env)%Z; injection Hstep as <-; exact HI.
    + injection Hstep as <-; exact HI.
    + destruct (open_input env); [|discriminate].
      injection Hstep as <-; exact HI.
    + destruct ts as [|[p|] ts];
        [ | destruct (find (seen c) (Title p)) | ];
        injection Hstep as <-; exact HI.
    + destruct (inPageClosed c); discriminate.
    + injection Hstep as <-; reflexivity.
    + destruct (wg c =? 0)%Z; [|discriminate].
      injection Hstep as <-; exact HI.
    + injection Hstep as <-; exact HI.
    + discriminate.
  - unfold stepWorker in Hstep.
    destruct (nth_error (workerPCs c) i) as [[ | | p | output | | ]|];
      try discriminate.
    + injection Hstep as <-; exact HI.
    + destruct (inPageClosed c) eqn:Hc; [|discriminate].
      injection Hstep as <-; simpl. now rewrite Hc.
    + destruct (processPage env p) as [ev [output | |]];
        try discriminate; injection Hstep as <-; exact HI.
    + destruct (outTextClosed c); discriminate.
    + destruct (wg c - 1 <? 0)%Z; [discriminate|].
      injection Hstep as <-; exact HI.
  - unfold stepWriter, write_then in Hstep.
    destruct (writerPC c) as [[ | | | text | text | | ]|]; try discriminate.
    + destruct (create_output env); [|discriminate].
      injection Hstep as <-. exact HI.
    + destruct (file c) as [f|]; [|discriminate].
      destruct (fwrite env f head); [|discriminate].
      injection Hstep as <-. exact HI.
    + destruct (outTextClosed c); [|discriminate].
      injection Hstep as <-. exact HI.
    + destruct (file c) as [f|]; [|discriminate].
      destruct (fwrite env f nl); [|discriminate].
      injection Hstep as <-. exact HI.
    + destruct (file c) as [f|]; [|discriminate].
      destruct (fwrite env f text); [|discriminate].
      injection Hstep as <-. exact HI.
    + destruct (file c) as [f|]; [|discriminate].
      destruct (fwrite env f "</page>"); [|discriminate].
      injection Hstep as <-. exact HI.
  - unfold handoff in Hstep.
    destruct (mainPC c) as [ | | | | p ts | | | | ] eqn:Hm; try discriminate.
    destruct (nth_error (workerPCs c) i) as [[ | | | | | ]|];
      try discriminate.
    destruct (inPageClosed c) eqn:Hc; [discriminate|].
    injection Hstep as <-; simpl. exact Hc.
  - unfold deliver in Hstep.
    destruct (nth_error (workerPCs c) i) as [[ | | | output | | ]|];
      try discriminate.
    destruct (writerPC c) as [[ | | | | | | ]|]; try discriminate.
    destruct (outTextClosed c); [discriminate|].
    injection Hstep as <-; exact HI.
Qed.

Lemma run_keeps_reader_flag (env : Env) (sched : list Action) (c0 c : Config) :
  inPageClosed c0 = reader_done (mainPC c0) ->
  run env (Running c0) sched = Some (Running c) ->
  inPageClosed c = reader_done (mainPC c).
Proof.
  revert c0; induction sched as [|a rest IH]; intros c0 H0 Hrun; simpl in Hrun.
  - now injection Hrun as <-.
  - destruct (step env c0 a) as [[c1 | c1]|] eqn:Hstep; [ | | discriminate].
    + exact (IH c1 (step_keeps_reader_flag env c0 c1 a H0 Hstep) Hrun).
    + destruct rest; discriminate Hrun.
Qed.





(** ** [Start] without workers *)

Lemma zero_workers_step (env : Env) (c c' : Config) (a : Action) :
  (workerCount env <= 0)%Z ->
  (forall ts, open_input env = Some ts -> has_page ts = true) ->
  starved c -> step env c a = Some (Running c') -> starved c'.
Proof.
  intros Hn Hin (Hw & Hs & Ho & Hc & Hb & Hl & Ht) Hstep.
  unfold starved.
  destruct a as [ | i | | i | i]; simpl in Hstep.
  - unfold stepMain in Hstep.
    destruct (mainPC c) as [j | | | ts | p ts | | | | ] eqn:Hm;
      simpl in Hb; try discriminate Hb.
    + rewrite (Hl j eq_refl) in Hstep.
      destruct (1 <=? workerCount env)%Z eqn:E;
        [apply Z.leb_le in E; lia|].
      injection Hstep as <-; simpl.
      repeat (split; [assumption || reflexivity|]).
      split; [discriminate | exact Ht].
    + injection Hstep as <-; simpl.
      repeat (split; [assumption || reflexivity|]).
      split; [discriminate | reflexivity].
    + destruct (open_input env) as [ts|] eqn:Hopen; [|discriminate].
      injection Hstep as <-; simpl.
      repeat (split; [assumption || reflexivity|]).
      split; [exact (Hin ts eq_refl) | split; [discriminate | exact Ht]].
    + rewrite Hs in Hstep.
      destruct ts as [|[p|] ts]; try discriminate Hb;
        simpl in Hstep; injection Hstep as <-; simpl;
        repeat (split; [assumption || reflexivity|]);
        (split; [discriminate | exact Ht]).
    + rewrite Hc in Hstep. discriminate.
  - unfold stepWorker in Hstep. rewrite Hw in Hstep.
    destruct i; discriminate.
  - unfold stepWriter, write_then in Hstep.
    destruct (writerPC c) as [[ | | | text | text | | ]|]; try discriminate.
    + destruct (create_output env); [|discriminate].
      injection Hstep as <-. simpl. now repeat split.
    + destruct (file c) as [f|]; [|discriminate].
      destruct (fwrite env f head); [|discriminate].
      injection Hstep as <-. simpl. now repeat split.
    + rewrite Ho in Hstep. discriminate.
    + destruct (file c) as [f|]; [|discriminate].
      destruct (fwrite env f nl); [|discriminate].
      injection Hstep as <-. simpl. now repeat split.
    + destruct (file c) as [f|]; [|discriminate].
      destruct (fwrite env f text); [|discriminate].
      injection Hstep as <-. simpl. now repeat split.
  - unfold handoff in Hstep. rewrite Hw in Hstep.
    destruct (mainPC c); try discriminate; destruct i; discriminate.
  - unfold deliver in Hstep. rewrite Hw in Hstep.
    destruct i; discriminate.
Qed.

Lemma zero_workers_run (env : Env) (sched : list Action) (c0 c : Config) :
  (workerCount env <= 0)%Z ->
  (forall ts, open_input env = Some ts -> has_page ts = true) ->
  starved c0 -> run env (Running c0) sched = Some (Running c) -> starved c.
Proof.
  intros Hn Hin. revert c0.
  induction sched as [|a rest IH]; intros c0 H0 Hrun; simpl in Hrun.
  - now injection Hrun as <-.
  - destruct (step env c0 a) as [[c1 | c1]|] eqn:Hstep; [ | | discriminate].
    + exact (IH c1 (zero_workers_step env c0 c1 a Hn Hin H0 Hstep) Hrun).
    + destruct rest; discriminate Hrun.
Qed.

(** X11.  With a worker count of zero or less, [Start] starts no worker;
    when the input holds a page, no schedule brings [Start] to its return:
    the caller never gets past the send of the first page, no queue is ever
    closed, and the writer never comes to its trailer. *)
Theorem no_workers_never_returns (env : Env) (sched : list Action)
    (c : Config) :
  (workerCount env <= 0)%Z ->
  (forall ts, open_input env = Some ts -> has_page ts = true) ->
  run env (Running initial) sched = Some (Running c) ->
  workerPCs c = []
  /\ mainPC c <> MReturned
  /\ inPageClosed c = false
  /\ outTextClosed c = false
  /\ writerPC c <> Some WrTrailer
  /\ writerPC c <> Some WrDone.
Proof.
  intros Hn Hin Hrun.
  assert (H0 : starved initial).
  { unfold starved; simpl. repeat (split; [reflexivity|]).
    split; [|reflexivity]. intros i H. now injection H. }
  pose proof (zero_workers_run env sched initial c Hn Hin H0 Hrun)
    as (Hw & Hs & Ho & Hc & Hb & Hl & Ht).
  split; [exact Hw|].
  split; [intros E; rewrite E in Hb; discriminate Hb|].
  split; [exact Hc|]. split; [exact Ho|].
  split; intros E; rewrite E in Ht; discriminate Ht.
Qed.

Lemma no_workers_never_returns_witness :
  mainPC (config_after (no_worker_env [OtherToken; PageElement dog_animal])
            [StepMain; StepMain; StepWriter; StepMain; StepMain; StepMain])
  <> MReturned.
Proof.
  refine (proj1 (proj2 (no_workers_never_returns
            (no_worker_env [OtherToken; PageElement dog_animal])
            [StepMain; StepMain; StepWriter; StepMain; StepMain; StepMain]
            (config_after (no_worker_env [OtherToken; PageElement dog_animal])
               [StepMain; StepMain; StepWriter; StepMain; StepMain; StepMain])
            _ _ eq_refl))).
  - vm_compute. discriminate.
  - intros ts H. injection H as <-. reflexivity.
Defined.

(** ** A complete run of [Start] *)


















(** ** [Start] does not deadlock *)

Lemma has_worker_update (i : nat) (pc : WorkerPC) (ws : list WorkerPC) :
  has_worker (update i pc ws) = has_worker ws.
Proof. destruct ws as [|w ws]; [reflexivity | destruct i; reflexivity]. Qed.

Lemma has_worker_app (ws ws' : list WorkerPC) :
  has_worker ws' = true -> has_worker (ws ++ ws')%list = true.
Proof. destruct ws; [trivial | reflexivity]. Qed.

Lemma Live_initial : Live initial.
Proof. unfold Live; simpl. intuition (try discriminate; try lia). Qed.

Lemma Live_worker (c : Config) (i : nat) (pc pc' : WorkerPC) (c0 : Config) :
  Live c ->
  nth_error (workerPCs c) i = Some pc ->
  (left_loop pc' = true -> inPageClosed c = true) ->
  mainPC c0 = mainPC c -> writerPC c0 = writerPC c -> file c0 = file c ->
  inPageClosed c0 = inPageClosed c -> outTextClosed c0 = outTextClosed c ->
  workerPCs c0 = workerPCs c ->
  Live (set_worker i pc' c0).
Proof.
  intros (L1 & L2 & L3 & L4 & L5 & L6 & L7) Hi Hp E1 E2 E3 E4 E5 E6.
  unfold Live, set_worker; simpl.
  rewrite E1, E2, E3, E4, E5, E6, has_worker_update.
  repeat (split; [assumption|]). split; [|split; [|split; assumption]];
    try assumption.
  intros Hc. apply forallb_update; [exact (L4 Hc)|].
  destruct (left_loop pc') eqn:E; [|reflexivity].
  rewrite (Hp eq_refl) in Hc. discriminate Hc.
Qed.

Lemma step_keeps_Live (env : Env) (c c' : Config) (a : Action) :
  (1 <= workerCount env)%Z ->
  Live c -> step env c a = Some (Running c') -> Live c'.
Proof.
  intros Hn HL Hstep.
  destruct a as [ | i | | i | i]; simpl in Hstep.
  - destruct HL as (L1 & L2 & L3 & L4 & L5 & L6 & L7).
    unfold stepMain in Hstep. unfold Live.
    destruct (mainPC c) as [j | | | ts | p ts | | | | ] eqn:Hm;
      simpl in L1, L5, L6, L7.
    + destruct (j <=? workerCount env)%Z eqn:E; injection Hstep as <-; simpl.
      * rewrite forallb_app. simpl.
        repeat split; try assumption; try discriminate; try lia.
        -- intros H. now rewrite (L4 H).
        -- intros _. now apply has_worker_app.
      * apply Z.leb_gt in E.
        repeat split; try assumption; try discriminate.
        intros _. apply L7. apply Z.leb_le. lia.
    + injection Hstep as <-; simpl.
      repeat split; try assumption; try discriminate.
    + destruct (open_input env); [|discriminate].
      injection Hstep as <-; simpl.
      repeat split; try assumption; try discriminate.
    + destruct ts as [|[p|] ts];
        [ | destruct (find (seen c) (Title p)) | ];
        injection Hstep as <-; simpl;
        (repeat split; try assumption; try discriminate).
    + destruct (inPageClosed c); discriminate.
    + injection Hstep as <-; simpl.
      repeat split; try assumption; try discriminate.
    + destruct (wg c =? 0)%Z; [|discriminate].
      injection Hstep as <-; simpl.
      repeat split; try assumption; try discriminate.
    + injection Hstep as <-; simpl.
      repeat split; try assumption; try discriminate; try reflexivity.
    + discriminate.
  - unfold stepWorker in Hstep.
    destruct (nth_error (workerPCs c) i) as [[ | | p | output | | ]|] eqn:Hi;
      try discriminate.
    + injection Hstep as <-.
      apply (Live_worker c i WAdd); try assumption; try reflexivity.
      discriminate.
    + destruct (inPageClosed c) eqn:Hc; [|discriminate].
      injection Hstep as <-.
      apply (Live_worker c i WRecv); try assumption; try reflexivity.
      intros _; exact Hc.
    + destruct (processPage env p) as [ev [output | |]];
        try discriminate; injection Hstep as <-;
        apply (Live_worker c i (WHave p)); try assumption;
        try reflexivity; discriminate.
    + destruct (outTextClosed c); discriminate.
    + destruct (wg c - 1 <? 0)%Z; [discriminate|].
      injection Hstep as <-.
      apply (Live_worker c i WExiting); try assumption; try reflexivity.
      intros _. destruct HL as (_ & _ & _ & L4 & _).
      destruct (inPageClosed c); [reflexivity|].
      discriminate (forallb_nth_error _ _ i _ (L4 eq_refl) Hi).
  - destruct HL as (L1 & L2 & L3 & L4 & L5 & L6 & L7).
    unfold stepWriter, write_then in Hstep. unfold Live.
    destruct (writerPC c) as [[ | | | text | text | | ]|] eqn:Hwr;
      try discriminate; simpl in L2, L3.
    + destruct (create_output env); [|discriminate].
      injection Hstep as <-. simpl.
      repeat split; try assumption; try discriminate.
    + destruct (file c) as [f|]; [|discriminate].
      destruct (fwrite env f head); [|discriminate].
      injection Hstep as <-. simpl.
      repeat split; try assumption; try discriminate.
    + destruct (outTextClosed c) eqn:Hc; [|discriminate].
      injection Hstep as <-. simpl. rewrite Hc.
      repeat split; try assumption; try discriminate.
    + destruct (file c) as [f|]; [|discriminate].
      destruct (fwrite env f nl); [|discriminate].
      injection Hstep as <-. simpl.
      repeat split; try assumption; try discriminate.
    + destruct (file c) as [f|]; [|discriminate].
      destruct (fwrite env f text); [|discriminate].
      injection Hstep as <-. simpl.
      repeat split; try assumption; try discriminate.
    + destruct (file c) as [f|]; [|discriminate].
      destruct (fwrite env f "</page>"); [|discriminate].
      injection Hstep as <-. simpl.
      repeat split; try assumption; try discriminate.
  - unfold handoff in Hstep.
    destruct (mainPC c) as [ | | | | p ts | | | | ] eqn:Hm; try discriminate.
    destruct (nth_error (workerPCs c) i) as [[ | | | | | ]|] eqn:Hi;
      try discriminate.
    destruct (inPageClosed c) eqn:Hc; [discriminate|].
    injection Hstep as <-.
    apply (Live_worker (set_main (MToken ts) c) i WRecv);
      try reflexivity; try assumption; try discriminate.
    destruct HL as (L1 & L2 & L3 & L4 & L5 & L6 & L7).
    unfold Live; simpl. rewrite Hm in *. simpl in *.
    repeat split; try assumption; try discriminate.
  - unfold deliver in Hstep.
    destruct (nth_error (workerPCs c) i) as [[ | | | output | | ]|] eqn:Hi;
      try discriminate.
    destruct (writerPC c) as [[ | | | | | | ]|] eqn:Hwr; try discriminate.
    destruct (outTextClosed c) eqn:Hc; [discriminate|].
    injection Hstep as <-.
    apply (Live_worker (set_writer (WrNewline output) c) i
             (WSendText output));
      try reflexivity; try assumption; try discriminate.
    destruct HL as (L1 & L2 & L3 & L4 & L5 & L6 & L7).
    unfold Live; simpl. rewrite Hwr in *. simpl in *.
    repeat split; try assumption; try discriminate.
Qed.

Lemma run_keeps_Live (env : Env) (sched : list Action) (c0 c : Config) :
  (1 <= workerCount env)%Z ->
  Live c0 -> run env (Running c0) sched = Some (Running c) -> Live c.
Proof.
  intros Hn. revert c0.
  induction sched as [|a rest IH]; intros c0 H0 Hrun; simpl in Hrun.
  - now injection Hrun as <-.
  - destruct (step env c0 a) as [[c1 | c1]|] eqn:Hstep; [ | | discriminate].
    + exact (IH c1 (step_keeps_Live env c0 c1 a Hn H0 Hstep) Hrun).
    + destruct rest; discriminate Hrun.
Qed.

Lemma has_worker_nth (ws : list WorkerPC) :
  has_worker ws = true -> exists pc, nth_error ws 0 = Some pc.
Proof. destruct ws as [|pc ws]; [discriminate | now exists pc]. Qed.

Lemma count_active_exists (ws : list WorkerPC) :
  1 <= count_active ws ->
  exists i pc, nth_error ws i = Some pc /\ active pc = true.
Proof.
  induction ws as [|w ws IH]; simpl; intros H; [lia|].
  destruct (active w) eqn:E.
  - now exists 0, w.
  - destruct (IH H) as (i & pc & Hi & Ha). now exists (S i), pc.
Qed.

Lemma forallb_false_nth (P : WorkerPC -> bool) (ws : list WorkerPC) :
  forallb P ws = false ->
  exists i pc, nth_error ws i = Some pc /\ P pc = false.
Proof.
  induction ws as [|w ws IH]; simpl; intros H; [discriminate|].
  destruct (P w) eqn:E.
  - destruct (IH H) as (i & pc & Hi & Hp). now exists (S i), pc.
  - now exists 0, w.
Qed.

(** The writer can move unless it has returned or waits on the open result
    queue. *)
Lemma writer_enabled (env : Env) (c : Config) (pc : WriterPC) :
  Live c ->
  writerPC c = Some pc ->
  pc <> WrDone ->
  (pc = WrRecv -> outTextClosed c = true) ->
  exists st, step env c StepWriter = Some st.
Proof.
  intros (L1 & L2 & L3 & L4 & L5 & L6 & L7) Hwr Hd Hr.
  simpl. unfold stepWriter, write_then. rewrite Hwr in *. simpl in L2.
  destruct pc as [ | | | text | text | | ].
  - destruct (create_output env); eexists; reflexivity.
  - destruct (file c) as [f|]; [|now elim (L2 eq_refl)].
    destruct (fwrite env f head); eexists; reflexivity.
  - rewrite (Hr eq_refl). eexists; reflexivity.
  - destruct (file c) as [f|]; [|now elim (L2 eq_refl)].
    destruct (fwrite env f nl); eexists; reflexivity.
  - destruct (file c) as [f|]; [|now elim (L2 eq_refl)].
    destruct (fwrite env f text); eexists; reflexivity.
  - destruct (file c) as [f|]; [|now elim (L2 eq_refl)].
    destruct (fwrite env f "</page>"); eexists; reflexivity.
  - now elim Hd.
Qed.

(** A worker that has not returned lets some goroutine move, unless it
    waits on the open handoff queue while the reader is not sending. *)
Lemma worker_enabled (env : Env) (c : Config) (i : nat) (pc : WorkerPC) :
  Inv c -> Live c ->
  nth_error (workerPCs c) i = Some pc ->
  returned pc = false ->
  (pc = WRecv ->
   inPageClosed c = true \/ exists p ts, mainPC c = MSendPage p ts) ->
  exists a st, step env c a = Some st.
Proof.
  intros (H1 & H2 & H3) HL Hi Hr Hrecv.
  destruct pc as [ | | p | output | | ]; try discriminate Hr.
  - exists (StepWorker i). simpl. unfold stepWorker. rewrite Hi.
    eexists; reflexivity.
  - destruct (inPageClosed c) eqn:Hc.
    + exists (StepWorker i). simpl. unfold stepWorker. rewrite Hi, Hc.
      eexists; reflexivity.
    + destruct (Hrecv eq_refl) as [H | (p & ts & Hm)]; [discriminate H|].
      exists (Handoff i). simpl. unfold handoff. rewrite Hm, Hi, Hc.
      eexists; reflexivity.
  - exists (StepWorker i). simpl. unfold stepWorker. rewrite Hi.
    destruct (processPage env p) as [ev [out | |]]; eexists; reflexivity.
  - assert (Hc : outTextClosed c = false).
    { destruct (outTextClosed c); [|reflexivity].
      rewrite (H3 eq_refl) in H2.
      discriminate (forallb_nth_error _ _ i _ (H2 eq_refl) Hi). }
    destruct (writerPC c) as [wpc|] eqn:Hwr.
    + destruct wpc as [ | | | text | text | | ];
        try (destruct (writer_enabled env c _ HL Hwr) as [st Hst];
             [discriminate | discriminate | ];
             exists StepWriter, st; exact Hst).
      * exists (Deliver i). simpl. unfold deliver. rewrite Hi, Hwr, Hc.
        eexists; reflexivity.
      * destruct HL as (_ & _ & L3 & _). rewrite Hwr in L3.
        rewrite (L3 eq_refl) in Hc. discriminate Hc.
    + destruct HL as (L1 & _). specialize (L1 Hwr).
      exists StepMain. simpl. unfold stepMain.
      destruct (mainPC c) as [j | | | | | | | | ]; try discriminate L1.
      * destruct (j <=? workerCount env)%Z; eexists; reflexivity.
      * eexists; reflexivity.
  - exists (StepWorker i). simpl. unfold stepWorker. rewrite Hi.
    destruct (wg c - 1 <? 0)%Z; eexists; reflexivity.
Qed.

(** X14.  With at least one worker, [Start] never deadlocks: in every
    configuration that a schedule reaches, either the caller, every worker
    and the writer have returned, or some goroutine can take a step. *)
Theorem start_never_deadlocks (env : Env) (sched : list Action)
    (c : Config) :
  (1 <= workerCount env)%Z ->
  run env (Running initial) sched = Some (Running c) ->
  finished c = false ->
  exists a st, step env c a = Some st.
Proof.
  intros Hn Hrun Hfin.
  pose proof (run_keeps_Inv env sched initial c Inv_initial Hrun) as HI.
  pose proof (run_keeps_reader_flag env sched initial c eq_refl Hrun) as Hin.
  pose proof (run_keeps_Live env sched initial c Hn Live_initial Hrun) as HL.
  destruct (mainPC c) as [j | | | ts | p ts | | | | ] eqn:Hm.
  - exists StepMain. simpl. unfold stepMain. rewrite Hm.
    destruct (j <=? workerCount env)%Z; eexists; reflexivity.
  - exists StepMain. simpl. unfold stepMain. rewrite Hm.
    eexists; reflexivity.
  - exists StepMain. simpl. unfold stepMain. rewrite Hm.
    destruct (open_input env); eexists; reflexivity.
  - exists StepMain. simpl. unfold stepMain. rewrite Hm.
    destruct ts as [|[p|] ts];
      [ | destruct (find (seen c) (Title p)) | ]; eexists; reflexivity.
  - simpl in Hin.
    pose proof HL as (L1 & L2 & L3 & L4 & L5 & L6 & L7).
    rewrite Hm in L7. specialize (L7 eq_refl). specialize (L4 Hin).
    destruct (has_worker_nth _ L7) as [pc Hi].
    pose proof (forallb_nth_error _ _ 0 _ L4 Hi) as Hpc.
    apply (worker_enabled env c 0 pc HI HL Hi).
    + destruct pc; try reflexivity; discriminate Hpc.
    + intros _. right. exists p, ts. exact Hm.
  - exists StepMain. simpl. unfold stepMain. rewrite Hm.
    eexists; reflexivity.
  - simpl in Hin.
    destruct (wg c =? 0)%Z eqn:E.
    + exists StepMain. simpl. unfold stepMain. rewrite Hm, E.
      eexists; reflexivity.
    + apply Z.eqb_neq in E. destruct HI as (H1 & H2 & H3).
      destruct (count_active_exists (workerPCs c)) as (i & pc & Hi & Ha);
        [lia|].
      apply (worker_enabled env c i pc (conj H1 (conj H2 H3)) HL Hi).
      * destruct pc; try reflexivity; discriminate Ha.
      * intros _. left. exact Hin.
  - exists StepMain. simpl. unfold stepMain. rewrite Hm.
    eexists; reflexivity.
  - simpl in Hin. unfold finished in Hfin. rewrite Hm in Hfin.
    destruct (writerPC c) as [wpc|] eqn:Hwr.
    + assert (Hc : outTextClosed c = true).
      { destruct HL as (_ & _ & _ & _ & L5 & _). exact (L5 Hm). }
      destruct wpc as [ | | | text | text | | ];
        try (destruct (writer_enabled env c _ HL Hwr) as [st Hst];
             [discriminate | intros _; exact Hc | ];
             exists StepWriter, st; exact Hst).
      destruct (forallb_false_nth _ _ Hfin) as (i & pc & Hi & Hp).
      apply (worker_enabled env c i pc); try assumption.
      intros _. left. exact Hin.
    + destruct HL as (L1 & _). specialize (L1 Hwr). rewrite Hm in L1.
      discriminate L1.
Qed.

Lemma start_never_deadlocks_witness :
  exists a st,
    step (sample_env [PageElement dog_animal] copy_script 1)
      (config_after (sample_env [PageElement dog_animal] copy_script 1)
         first_send_schedule) a
    = Some st.
Proof.
  apply (start_never_deadlocks
           (sample_env [PageElement dog_animal] copy_script 1)
           first_send_schedule).
  - vm_compute. discriminate.
  - vm_compute. reflexivity.
  - vm_compute. reflexivity.
Defined.
